(** * vosk-cli / vosk-tui: a shallow embedding of the two microphone demos

    The repository holds two near-identical Python programs,
    [src/vosk_cli/__init__.py] and [src/vosk_tui/__init__.py].  Both read
    audio blocks from a queue, feed them to a Vosk recognizer and show the
    finalized sentences and the live partial text in a [rich] layout; the
    second one can also fetch a model archive from the Hugging Face hub.

    The embedding keeps the Python names.  Python [str] values are lists of
    Unicode code points, external collaborators (audio device, file system,
    hub, recognizer, clock) are fields of a [World] record or inputs of the
    loop, and effects are recorded in a trace of events carried by a small
    writer/error monad. *)

From Stdlib Require Import Ascii String.
From Stdlib Require Import List Bool Arith ZArith NArith QArith Lia.
From Stdlib Require Decimal.
Import ListNotations.
Close Scope Q_scope.

Set Implicit Arguments.

(* ================================================================== *)
(** ** Python strings *)
(* ================================================================== *)

Module PyStr.

(** A Python [str] is a sequence of code points. *)
Definition str := list N.

(** A literal of the source text; every literal of the two programs is
    ASCII, so a byte is its own code point. *)
Definition lit (s : string) : str :=
  map N_of_ascii (list_ascii_of_string s).

Definition str_eqb (a b : str) : bool :=
  if list_eq_dec N.eq_dec a b then true else false.

(** [str.isspace] on one code point, as CPython's [_PyUnicode_IsWhitespace]:
    U+0009..000D, U+001C..001F, U+0020, U+0085, U+00A0, U+1680,
    U+2000..200A, U+2028, U+2029, U+202F, U+205F, U+3000. *)
Definition is_space (c : N) : bool :=
  ((9 <=? c) && (c <=? 13)
   || (28 <=? c) && (c <=? 32)
   || (c =? 133) || (c =? 160) || (c =? 5760)
   || (8192 <=? c) && (c <=? 8202)
   || (c =? 8232) || (c =? 8233) || (c =? 8239) || (c =? 8287)
   || (c =? 12288))%N.

(** [s.lstrip()], [s.rstrip()] and [s.strip()] with no argument. *)
Fixpoint lstrip (s : str) : str :=
  match s with
  | [] => []
  | c :: r => if is_space c then lstrip r else s
  end.

Definition rstrip (s : str) : str := rev (lstrip (rev s)).

Definition strip (s : str) : str := rstrip (lstrip s).

(** Truthiness of a string: [if sentence:]. *)
Definition truthy (s : str) : bool :=
  match s with [] => false | _ :: _ => true end.

(** [sep.join(parts)]. *)
Fixpoint join (sep : str) (parts : list str) : str :=
  match parts with
  | [] => []
  | [p] => p
  | p :: ps => p ++ sep ++ join sep ps
  end.

(** [s.split(sep, maxsplit)] for a one-character separator, the only kind
    the sources use ([":"] and ["."]).  [budget = None] is Python's
    unlimited [maxsplit = -1]; [Some k] allows at most [k] cuts, the rest of
    the string staying whole in the last part. *)
Fixpoint split_budget (sep : N) (budget : option nat) (s : str) : list str :=
  match s with
  | [] => [[]]
  | c :: r =>
      let cut := match budget with Some O => false | _ => (c =? sep)%N end in
      if cut then
        [] :: split_budget sep (option_map pred budget) r
      else
        match split_budget sep budget r with
        | p :: ps => (c :: p) :: ps
        | [] => [[c]]
        end
  end.

Definition split (sep : N) (maxsplit : Z) (s : str) : list str :=
  split_budget sep (if (maxsplit <? 0)%Z then None else Some (Z.to_nat maxsplit)) s.

(** [sub in s] for a one-character [sub]. *)
Definition contains (c : N) (s : str) : bool := existsb (N.eqb c) s.

Fixpoint startswith (p s : str) : bool :=
  match p, s with
  | [], _ => true
  | _ :: _, [] => false
  | a :: p', b :: s' => (a =? b)%N && startswith p' s'
  end.

(** [s.removeprefix(p)]. *)
Definition removeprefix (p s : str) : str :=
  if startswith p s then skipn (length p) s else s.

(** [s.replace(old, new)] for a one-character [old]. *)
Definition replace (old : N) (new : str) (s : str) : str :=
  flat_map (fun c => if (c =? old)%N then new else [c]) s.

(** Decimal digits of a natural number, most significant first. *)
Fixpoint uint_digits (u : Decimal.uint) : str :=
  match u with
  | Decimal.Nil => []
  | Decimal.D0 r => 48%N :: uint_digits r
  | Decimal.D1 r => 49%N :: uint_digits r
  | Decimal.D2 r => 50%N :: uint_digits r
  | Decimal.D3 r => 51%N :: uint_digits r
  | Decimal.D4 r => 52%N :: uint_digits r
  | Decimal.D5 r => 53%N :: uint_digits r
  | Decimal.D6 r => 54%N :: uint_digits r
  | Decimal.D7 r => 55%N :: uint_digits r
  | Decimal.D8 r => 56%N :: uint_digits r
  | Decimal.D9 r => 57%N :: uint_digits r
  end.

Definition digits (n : N) : str := uint_digits (N.to_uint n).

(** Left padding, as the width of a [%02d] or [%2d] conversion. *)
Definition pad_left (fill : N) (width : nat) (s : str) : str :=
  repeat fill (width - length s) ++ s.

(** [str(n)] / [f"{n}"] for an [int]. *)
Definition str_of_int (z : Z) : str :=
  if (z <? 0)%Z then 45%N :: digits (Z.to_N (- z)) else digits (Z.to_N z).

(** Thousands grouping of a digit string given least significant digit
    first; [k] counts the digits already placed in the current group. *)
Fixpoint group3_rev (k : nat) (ds : str) : str :=
  match ds with
  | [] => []
  | d :: r =>
      match k with
      | 3 => 44%N :: d :: group3_rev 1 r
      | _ => d :: group3_rev (S k) r
      end
  end.

(** [f"{n:,}"] for an [int]. *)
Definition format_comma (z : Z) : str :=
  let body := rev (group3_rev 0 (rev (digits (Z.to_N (Z.abs z))))) in
  if (z <? 0)%Z then 45%N :: body else body.

End PyStr.

Import PyStr.

Open Scope string_scope.
Open Scope list_scope.

(* ================================================================== *)
(** ** [pathlib.Path] (POSIX flavour) *)
(* ================================================================== *)

Module Pathlib.

(** A parsed path: its root (empty, ["/"] or ["//"]) and its components. *)
Record Path := mkPath { root : str; parts : list str }.

Definition slash : N := 47.
Definition dot : N := 46.

(** [posixpath.splitroot]: exactly two leading slashes are kept apart. *)
Definition splitroot (s : str) : str :=
  match s with
  | 47%N :: 47%N :: 47%N :: _ => lit "/"
  | 47%N :: 47%N :: _ => lit "//"
  | 47%N :: _ => lit "/"
  | _ => []
  end.

(** A component is kept unless it is empty or ["."]. *)
Definition keep_part (p : str) : bool :=
  truthy p && negb (str_eqb p (lit ".")).

(** [Path(s)]. *)
Definition Path_of (s : str) : Path :=
  {| root := splitroot s; parts := filter keep_part (split slash (-1) s) |}.

(** [str(p)]. *)
Definition Path_str (p : Path) : str :=
  match root p, parts p with
  | [], [] => lit "."
  | r, ps => r ++ join (lit "/") ps
  end.

(** [p.name]. *)
Definition name (p : Path) : str := last (parts p) [].

(** [p.parent]: a path with no component is its own parent. *)
Definition parent (p : Path) : Path :=
  {| root := root p; parts := removelast (parts p) |}.

(** [s.rfind(c)] as a signed index, [-1] when [c] does not occur. *)
Fixpoint rfind_from (c : N) (s : str) (i : Z) (found : Z) : Z :=
  match s with
  | [] => found
  | x :: r => rfind_from c r (i + 1)%Z (if (x =? c)%N then i else found)
  end.

Definition rfind (c : N) (s : str) : Z := rfind_from c s 0%Z (-1)%Z.

(** [p.stem]: the name without its last suffix; a leading or a trailing dot
    does not start a suffix. *)
Definition stem (p : Path) : str :=
  let n := name p in
  let i := rfind dot n in
  if ((0 <? i) && (i <? Z.of_nat (length n) - 1))%Z
  then firstn (Z.to_nat i) n
  else n.

(** [p / s] for a string [s]: an absolute [s] replaces [p]. *)
Definition truediv (p : Path) (s : str) : Path :=
  match s with
  | 47%N :: _ => Path_of s
  | _ => {| root := root p; parts := parts p ++ parts (Path_of s) |}
  end.

(** One result of [p.glob("*")]: the child of [p] called [child]. *)
Definition child_of (p : Path) (child : str) : Path :=
  {| root := root p; parts := parts p ++ [child] |}.

End Pathlib.

Import Pathlib.

(* ================================================================== *)
(** ** [datetime] *)
(* ================================================================== *)

Module Datetime.

(** A naive [datetime.datetime]; microseconds play no part in the two
    formats the programs use. *)
Record datetime := mkDatetime {
  year : N; month : N; day : N;
  hour : N; minute : N; second : N
}.

Definition two (n : N) : str := pad_left 48 2 (digits n).

(** [t.isoformat(timespec='seconds')] of the naive time of day. *)
Definition time_isoformat (d : datetime) : str :=
  two (hour d) ++ lit ":" ++ two (minute d) ++ lit ":" ++ two (second d).

Definition is_leap (y : N) : bool :=
  ((y mod 4 =? 0) && (negb (y mod 100 =? 0) || (y mod 400 =? 0)))%N.

Definition days_before_year (y : N) : N :=
  let p := (y - 1)%N in (p * 365 + p / 4 - p / 100 + p / 400)%N.

Definition days_in_month (y m : N) : N :=
  match m with
  | 2%N => if is_leap y then 29%N else 28%N
  | 4%N | 6%N | 9%N | 11%N => 30%N
  | _ => 31%N
  end.

Definition days_before_month (y m : N) : N :=
  fold_right N.add 0%N
    (map (fun k => days_in_month y (N.of_nat k)) (seq 1 (N.to_nat m - 1))).

(** [d.weekday()]: Monday is 0. *)
Definition weekday (d : datetime) : N :=
  ((days_before_year (year d) + days_before_month (year d) (month d)
    + day d + 6) mod 7)%N.

Definition day_name (w : N) : str :=
  nth (N.to_nat w)
      (map lit ["Mon"; "Tue"; "Wed"; "Thu"; "Fri"; "Sat"; "Sun"]) [].

Definition month_name (m : N) : str :=
  nth (N.to_nat m - 1)
      (map lit ["Jan"; "Feb"; "Mar"; "Apr"; "May"; "Jun";
                "Jul"; "Aug"; "Sep"; "Oct"; "Nov"; "Dec"]) [].

(** [d.ctime()], the C format ["%s %s %2d %02d:%02d:%02d %04d"]. *)
Definition ctime (d : datetime) : str :=
  day_name (weekday d) ++ lit " " ++ month_name (month d) ++ lit " "
  ++ pad_left 32 2 (digits (day d)) ++ lit " "
  ++ time_isoformat d ++ lit " "
  ++ pad_left 48 4 (digits (year d)).

End Datetime.

Import Datetime.

(* ================================================================== *)
(** ** Exceptions and results *)
(* ================================================================== *)

(** The exception classes that occur in the programs or reach them from a
    collaborator.  [OtherError] stands for any further class; none of them
    derives from [KeyboardInterrupt]. *)
Inductive exn : Type :=
| KeyboardInterrupt
| SystemExit (code : Z)
| FileNotFoundError (msg : str)
| ValueError (msg : str)
| UnboundLocalError (msg : str)
| OverflowError (msg : str)
| TypeError (msg : str)
| OtherError (cls : string) (msg : str).

Inductive result (A : Type) : Type :=
| Ok (a : A)
| Raise (e : exn).

Arguments Ok {A} a.
Arguments Raise {A} e.

(** [isinstance(e, KeyboardInterrupt)], the test of the [except] clause. *)
Definition is_KeyboardInterrupt (e : exn) : bool :=
  match e with KeyboardInterrupt => true | _ => false end.

(** A Python [float]: a finite value (every finite double is a rational), an
    infinity or a NaN. *)
Inductive PyFloat : Type :=
| Finite (q : Q)
| Infinity (negative : bool)
| NaN.

(** [int(x)] for a float: truncation toward zero. *)
Definition int_of_float (x : PyFloat) : result Z :=
  match x with
  | Finite q => Ok (Z.quot (Qnum q) (Zpos (Qden q)))
  | Infinity _ => Raise (OverflowError (lit "cannot convert float infinity to integer"))
  | NaN => Raise (ValueError (lit "cannot convert float NaN to integer"))
  end.

(* ================================================================== *)
(** ** Command-line arguments *)
(* ================================================================== *)

(** [-d/--device] goes through [int_or_str]: a numeric id or a substring. *)
Inductive device_sel : Type :=
| DeviceId (n : Z)
| DeviceName (s : str).

(** The [argparse.Namespace] returned by [get_args]; an option that was not
    given is [None]. *)
Record Namespace := mkNamespace {
  list_devices : bool;
  device : option device_sel;
  samplerate : option Z;
  model : option str
}.

Definition set_samplerate (a : Namespace) (r : Z) : Namespace :=
  {| list_devices := list_devices a; device := device a;
     samplerate := Some r; model := model a |}.

(* ================================================================== *)
(** ** The [rich] renderables of the dashboard *)
(* ================================================================== *)

(** The cap on the number of sentences printed at the same time. *)
Definition MAX_SENTENCES : Z := 30.

(** [l[start:]] with Python's treatment of a negative or too large start. *)
Definition slice_from {A : Type} (start : Z) (l : list A) : list A :=
  let n := Z.of_nat (length l) in
  let s := if (start <? 0)%Z then Z.max 0 (n + start) else Z.min start n in
  skipn (Z.to_nat s) l.

Record Column := mkColumn { justify : string; ratio : N }.

Record Table := mkTable {
  expand : bool;
  columns : list Column;
  rows : list (list str)
}.

Inductive Renderable : Type :=
| Text (s : str)
| Grid (t : Table).

(** [Panel(renderable, title=...)]. *)
Record Panel := mkPanel { renderable : Renderable; title : option str }.

Module Header.

(** [Header.__rich__]: the header reads the wall clock each time it is
    rendered; [now] is the value of [datetime.now()] at that moment. *)
Definition __rich__ (now : datetime) : Panel :=
  let grid :=
    {| expand := true;
       columns := [mkColumn "left" 1; mkColumn "center" 1; mkColumn "right" 1];
       rows := [[lit "Prifysgol Bangor a ffrindiau";
                 lit "[bold]Vosk Live Demo[reset]";
                 lit "[green]" ++ replace 58 (lit "[blink]:[/]") (ctime now)]] |}
  in mkPanel (Grid grid) None.

End Header.

Module Footer.

Record t := mk { args : Namespace }.

(** [Footer.__rich__]. Formatting [None] with [:,] is a [TypeError]. *)
Definition __rich__ (self : t) : result Panel :=
  let shown_model :=
    match model (args self) with
    | Some m => if truthy m then m else lit "en-us"
    | None => lit "en-us"
    end in
  match samplerate (args self) with
  | None =>
      Raise (TypeError (lit "unsupported format string passed to NoneType.__format__"))
  | Some r =>
      let components :=
        [lit "Model: " ++ shown_model;
         lit "Sample rate: " ++ format_comma r;
         lit "Block size: " ++ format_comma 8000] in
      Ok (mkPanel (Text (join (lit " | ") components)) (Some (lit "Parameters")))
  end.

End Footer.

Module TextLog.

Record t := mk { sentences : list str }.

(** The sentences that reach the panel: [self.sentences[-MAX_SENTENCES:]]. *)
Definition shown (self : t) : list str :=
  slice_from (- MAX_SENTENCES) (sentences self).

(** [TextLog.__rich__]. *)
Definition __rich__ (self : t) : Panel :=
  mkPanel (Text (join (lit (String "010"%char EmptyString)) (shown self)))
          (Some (lit "Sentence log")).

End TextLog.

(** What a region of the layout holds.  [CTextLog] is the object
    [TextLog(completed_sentences)]: it keeps a reference to the one list of
    the processing loop, not a copy, so it shows that list as it is when the
    region is rendered. *)
Inductive Content : Type :=
| Placeholder
| CHeader
| CFooter (f : Footer.t)
| CTextLog
| CPanel (p : Panel).

(** [rich.layout.Layout]: a named region, its fixed size if any, its ratio,
    what it holds and the regions it is split into. *)
#[warnings="-register-all"]
Inductive Layout : Type :=
| Node (name : string) (size : option N) (ratio : N)
       (content : Content) (children : list Layout).

Definition make_layout : Layout :=
  Node "root" None 1 Placeholder
    [ Node "header" (Some 3%N) 1 Placeholder [];
      Node "main" None 1 Placeholder
        [ Node "log" None 1 Placeholder [];
          Node "input" (Some 4%N) 1 Placeholder [] ];
      Node "footer" (Some 3%N) 1 Placeholder [] ].

(** [layout[key].update(c)]: the first region called [key], searched depth
    first, gets the new content.  [None] is rich's [KeyError]. *)
Fixpoint Layout_update (key : string) (c : Content) (l : Layout) : option Layout :=
  match l with
  | Node nm sz ra ct ch =>
      if String.eqb nm key then Some (Node nm sz ra c ch)
      else
        option_map (Node nm sz ra ct)
          ((fix first (cs : list Layout) : option (list Layout) :=
              match cs with
              | [] => None
              | x :: r =>
                  match Layout_update key c x with
                  | Some x' => Some (x' :: r)
                  | None => option_map (cons x) (first r)
                  end
              end) ch)
  end.

(** The programs only update regions that [make_layout] created; for those
    the lookup cannot fail, and an unknown key leaves the layout as it is. *)
Definition update (key : string) (c : Content) (l : Layout) : Layout :=
  match Layout_update key c l with
  | Some l' => l'
  | None => l
  end.

(** The regions that are drawn: those that are not split further. *)
Fixpoint regions (l : Layout) : list (string * Content) :=
  match l with
  | Node nm _ _ ct [] => [(nm, ct)]
  | Node _ _ _ _ ch => flat_map regions ch
  end.

Inductive Rendered : Type :=
| Blank
| Drawn (p : Panel).

(** Rendering one region: [__rich__] of what it holds, given the clock and
    the current contents of [completed_sentences]. *)
Definition render_content (now : datetime) (completed_sentences : list str)
    (c : Content) : result Rendered :=
  match c with
  | Placeholder => Ok Blank
  | CHeader => Ok (Drawn (Header.__rich__ now))
  | CFooter f =>
      match Footer.__rich__ f with
      | Ok p => Ok (Drawn p)
      | Raise e => Raise e
      end
  | CTextLog => Ok (Drawn (TextLog.__rich__ (TextLog.mk completed_sentences)))
  | CPanel p => Ok (Drawn p)
  end.

Fixpoint render_regions (now : datetime) (completed_sentences : list str)
    (rs : list (string * Content)) : result (list (string * Rendered)) :=
  match rs with
  | [] => Ok []
  | (nm, c) :: r =>
      match render_content now completed_sentences c with
      | Raise e => Raise e
      | Ok d =>
          match render_regions now completed_sentences r with
          | Raise e => Raise e
          | Ok ds => Ok ((nm, d) :: ds)
          end
      end
  end.

(** One refresh of the [Live] display. *)
Definition render (now : datetime) (completed_sentences : list str)
    (layout : Layout) : result (list (string * Rendered)) :=
  render_regions now completed_sentences (regions layout).

(* ================================================================== *)
(** ** Collaborators, events and the effect monad *)
(* ================================================================== *)

(** How a [vosk.Model] was asked for: [Model(path)] or [Model(lang=...)]. *)
Inductive model_spec : Type :=
| ByPath (path : str)
| ByLang (lang : str).

(** What the programs do to the outside, in the order they do it.
    [Print s] is a call of [print(s)], whether or not it gets to write. *)
Inductive event : Type :=
| Print (s : str)
| QueryDevices (d : option device_sel)
| PathExists (p : str)
| RepoExists (repo : str)
| HubGlob (pattern : str)
| HubDownload (repo file : str)
| TarExtract (archive dest : str)
| DirGlob (dir : str)
| IsDir (p : str)
| ModelLoad (m : model_spec)
| StreamOpen (rate : Z) (blocksize : Z) (d : option device_sel)
| StreamClose
| RecognizerNew (m : model_spec) (rate : Z)
| LiveStart
| LiveStop.

(** The answers of the collaborators.  Each may raise, as the libraries
    do; [default_samplerate] is the field of the device info that
    [sd.query_devices(device, "input")] returns.  [exists_] is
    [Path.exists], which answers [False] for a missing path but raises
    [OSError] for the errors it does not ignore (a name that is too long);
    [markup] is what rich's markup parser makes of a text that holds a
    square bracket: it accepts it or raises [MarkupError]. *)
Record World := mkWorld {
  default_samplerate : option device_sel -> result PyFloat;
  exists_ : str -> result bool;
  markup : str -> result unit;
  repo_exists : str -> result bool;
  fs_glob : str -> result (list str);
  hf_hub_download : str -> str -> result str;
  extractall : str -> str -> result unit;
  glob_star : str -> list str;
  is_dir : str -> bool;
  Model : model_spec -> result unit;
  RawInputStream : Z -> option device_sel -> result unit;
  KaldiRecognizer : model_spec -> Z -> result unit
}.

(** A computation: the events it emitted and its value or exception. *)
Definition M (A : Type) : Type := (list event * result A)%type.

Definition ret {A : Type} (a : A) : M A := ([], Ok a).

Definition raise {A : Type} (e : exn) : M A := ([], Raise e).

Definition bind {A B : Type} (m : M A) (k : A -> M B) : M B :=
  match m with
  | (t, Raise e) => (t, Raise e)
  | (t, Ok a) => let '(t', r) := k a in (t ++ t', r)
  end.

Notation "x <- m ;; k" := (bind m (fun x => k))
  (at level 61, m at next level, right associativity).
Notation "m ;;; k" := (bind m (fun _ => k))
  (at level 61, right associativity).

(** An effect: the event is emitted, then the collaborator answers. *)
Definition perform {A : Type} (ev : event) (r : result A) : M A := ([ev], r).

Definition bracket : N := 91.

(** What [rich.print] does with a text: without a square bracket there is
    no markup to parse and the text is written as it is; with one, the
    markup parser decides.  Errors of the terminal itself are left out. *)
Definition console (w : World) (s : str) : result unit :=
  if contains bracket s then markup w s else Ok tt.

(** [print(s)], the [print] of rich. *)
Definition print (w : World) (s : str) : M unit := perform (Print s) (console w s).

(** [with cm: body]: once entered, the exit action runs whether the body
    returns or raises, and does not swallow the exception. *)
Definition with_ {A : Type} (enter : M unit) (exit_ev : event) (body : M A) : M A :=
  enter ;;;
  match body with
  | (t, r) => (t ++ [exit_ev], r)
  end.

Definition trace {A : Type} (m : M A) : list event := fst m.
Definition outcome {A : Type} (m : M A) : result A := snd m.

(* ================================================================== *)
(** ** [load_model_from_huggingface] (vosk_tui only) *)
(* ================================================================== *)

Definition colon : N := 58.

(** Reading a local variable that no branch has bound. *)
Definition read_local (var : string) (v : option str) : M str :=
  match v with
  | Some x => ret x
  | None =>
      raise (UnboundLocalError
               (lit "cannot access local variable '" ++ lit var
                ++ lit "' where it is not associated with a value"))
  end.

(** The first half of the function: the [if ":" in model_id] statement.
    It binds [model] and, on some paths only, [file_id]. *)
Definition choose_file (w : World) (model_id : str) : M (str * option str) :=
  if contains colon model_id then
    match split colon 2 model_id with
    | [model; file_id] => ret (model, Some file_id)
    | [] | [_] =>
        raise (ValueError (lit "not enough values to unpack (expected 2)"))
    | _ => raise (ValueError (lit "too many values to unpack (expected 2)"))
    end
  else
    let model := model_id in
    tars <- perform (HubGlob (model_id ++ lit "/*.tar.gz"))
                    (fs_glob w (model_id ++ lit "/*.tar.gz")) ;;
    file_id <-
      (match tars with
       | [tar0] =>
           print w (lit "Resolved model tar file to be " ++ tar0) ;;;
           ret (Some (removeprefix (lit "/") (removeprefix model_id tar0)))
       | _ => ret None
       end) ;;
    (if (length tars =? 0)%nat then
       raise (FileNotFoundError
                (lit "Could not locate a tar.gz in the repo " ++ model_id
                 ++ lit ". Use a colon after the model id to specify one"))
     else ret tt) ;;;
    (if (1 <? length tars)%nat then
       (* the exception object is built and dropped: there is no [raise] *)
       let _ :=
         ValueError
           (lit "Found more than one tar.gz file in the repo " ++ model_id
            ++ lit ". Use a colon after the model id to specify one. Found "
            ++ join (lit ", ") tars) in
       ret tt
     else ret tt) ;;;
    ret (model, file_id).

(** The directory the archive is unpacked into:
    [model_str_path.parent / model_str_path.stem.split(".")[0]]. *)
Definition extraction_dir (model_str_path : Path) : Path :=
  truediv (parent model_str_path)
          (hd [] (split dot (-1) (stem model_str_path))).

(** The second half: download, unpack, enter a lone folder, load. *)
Definition fetch_and_load (w : World) (model : str) (file_id : option str)
  : M model_spec :=
  fid <- read_local "file_id" file_id ;;
  downloaded <- perform (HubDownload model fid) (hf_hub_download w model fid) ;;
  let model_str_path := Path_of downloaded in
  let extracted_path := extraction_dir model_str_path in
  print w (lit "Extracting model to " ++ Path_str extracted_path) ;;;
  perform (TarExtract (Path_str model_str_path) (Path_str extracted_path))
          (extractall w (Path_str model_str_path) (Path_str extracted_path)) ;;;
  files <- perform (DirGlob (Path_str extracted_path))
                   (Ok (map (child_of extracted_path)
                            (glob_star w (Path_str extracted_path)))) ;;
  extracted_path' <-
    (match files with
     | [only] =>
         d <- perform (IsDir (Path_str only)) (Ok (is_dir w (Path_str only))) ;;
         ret (if d : bool then only else extracted_path)
     | _ => ret extracted_path
     end) ;;
  let m := ByPath (Path_str extracted_path') in
  perform (ModelLoad m) (Model w m) ;;;
  ret m.

Definition load_model_from_huggingface (w : World) (model_id : str) : M model_spec :=
  mf <- choose_file w model_id ;;
  fetch_and_load w (fst mf) (snd mf).

(* ================================================================== *)
(** ** The processing loop *)
(* ================================================================== *)

(** What the recognizer reports for one audio block: [AcceptWaveform]
    returned true and [Result()] holds ["text"], or it returned false and
    [PartialResult()] holds ["partial"]. *)
Inductive RecognitionResult : Type :=
| Final (text : str)
| Partial (partial : str).

(** One pass of [while True]: the block taken from the queue, seen through
    what the recognizer made of it, and the clock at that moment. *)
Record Tick := mkTick { recognized : RecognitionResult; now : datetime }.

(** The mutable objects of the loop. *)
Record LoopState := mkLoopState {
  completed_sentences : list str;
  layout : Layout
}.

(** The f-string appended to the log. *)
Definition log_entry (now : datetime) (sentence : str) : str :=
  lit "[green][" ++ time_isoformat now ++ lit "]:[reset] " ++ sentence.

(** The body of the [while True] loop. *)
Definition loop_body (st : LoopState) (tk : Tick) : LoopState :=
  match recognized tk with
  | Final text =>
      let sentence := strip text in
      if truthy sentence then
        {| completed_sentences :=
             completed_sentences st ++ [log_entry (now tk) sentence];
           layout := update "log" CTextLog (layout st) |}
      else st
  | Partial partial =>
      {| completed_sentences := completed_sentences st;
         layout := update "input"
                     (CPanel (mkPanel (Text partial) (Some (lit "Live input"))))
                     (layout st) |}
  end.

(** The loop over the blocks that arrive before it is broken off. *)
Definition run_loop (st : LoopState) (script : list Tick) : LoopState :=
  fold_left loop_body script st.

(** What the [Live] display shows for a state at a given moment. *)
Definition dashboard (clock : datetime) (st : LoopState)
  : result (list (string * Rendered)) :=
  render clock (completed_sentences st) (layout st).

(* ================================================================== *)
(** ** [main] *)
(* ================================================================== *)

(** "Fetch sample rate from device if it doesn't exist". *)
Definition resolve_samplerate (w : World) (args : Namespace) : M Namespace :=
  match samplerate args with
  | None =>
      info <- perform (QueryDevices (device args))
                      (default_samplerate w (device args)) ;;
      r <- ([], int_of_float info) ;;
      let args' := set_samplerate args r in
      print w (lit "Using a sample rate of " ++ str_of_int r) ;;;
      ret args'
  | Some _ => ret args
  end.

(** [Model(...)]: the load is an effect and may raise. *)
Definition load (w : World) (m : model_spec) : M model_spec :=
  perform (ModelLoad m) (Model w m) ;;; ret m.

(** [Path(s).exists()]. *)
Definition path_exists (w : World) (s : str) : M bool :=
  let p := Path_str (Path_of s) in perform (PathExists p) (exists_ w p).

(** The layout as it is when the loop starts. *)
Definition initial_layout (args : Namespace) : Layout :=
  update "input" (CPanel (mkPanel (Text []) (Some (lit "Live input"))))
    (update "footer" (CFooter (Footer.mk args))
       (update "header" CHeader make_layout)).

Definition initial_state (args : Namespace) : LoopState :=
  {| completed_sentences := [];
     layout := update "log" CTextLog (initial_layout args) |}.

(** [samplerate] of the namespace once it has been resolved. *)
Definition rate_of (args : Namespace) : Z :=
  match samplerate args with Some r => r | None => 0%Z end.

(** The [try] block from "Select model" on, with the sample rate settled
    in [args].  It has no normal exit: the loop runs until something
    raises.  [script] is what the loop gets to process and [stop] the
    exception that ends it (a key press, a failing collaborator). *)
Definition main_resolved (select : World -> Namespace -> M model_spec)
    (w : World) (args : Namespace) (script : list Tick) (stop : exn)
  : M Empty_set :=
  model <- select w args ;;
  with_ (perform (StreamOpen (rate_of args) 8000 (device args))
                 (RawInputStream w (rate_of args) (device args)))
        StreamClose
        (perform (RecognizerNew model (rate_of args))
                 (KaldiRecognizer w model (rate_of args)) ;;;
         with_ (perform LiveStart (Ok tt)) LiveStop
               (let final := run_loop (initial_state args) script in
                raise stop)).

(** The whole [try] block. *)
Definition main_try (select : World -> Namespace -> M model_spec)
    (w : World) (args0 : Namespace) (script : list Tick) (stop : exn)
  : M Empty_set :=
  args <- resolve_samplerate w args0 ;;
  main_resolved select w args script stop.

Definition newline : str := [10%N].

(** [main]: the [try] block and its one [except KeyboardInterrupt] clause.
    The result is the trace and the exception that leaves [main];
    [exit(0)] leaves as [SystemExit 0]. *)
Definition main_with (select : World -> Namespace -> M model_spec)
    (w : World) (args0 : Namespace) (script : list Tick) (stop : exn)
  : list event * exn :=
  match main_try select w args0 script stop with
  | (t, Ok impossible) => match impossible with end
  | (t, Raise e) =>
      if is_KeyboardInterrupt e
      then (t ++ [Print (newline ++ lit "Done")], SystemExit 0)
      else (t, e)
  end.

(** The status the interpreter ends with when [e] leaves [main]. *)
Definition exit_status (e : exn) : Z :=
  match e with
  | SystemExit c => c
  | KeyboardInterrupt => 130
  | _ => 1
  end.

Module vosk_cli.

(** "Select model", basic program. *)
Definition select_model (w : World) (args : Namespace) : M model_spec :=
  match model args with
  | None => load w (ByLang (lit "en-us"))
  | Some m =>
      e <- path_exists w m ;;
      if e : bool then load w (ByPath m)
      else load w (ByLang m)
  end.

(** [main] of [src/vosk_cli/__init__.py]. *)
Definition main := main_with select_model.

End vosk_cli.

Module vosk_tui.

(** "Select model", program with the hub. *)
Definition select_model (w : World) (args : Namespace) : M model_spec :=
  match model args with
  | None => load w (ByLang (lit "en-us"))
  | Some m =>
      e <- path_exists w m ;;
      if e : bool then load w (ByPath m)
      else
        r <- perform (RepoExists m) (repo_exists w m) ;;
        if r : bool then load_model_from_huggingface w m
        else load w (ByLang m)
  end.

(** [main] of [src/vosk_tui/__init__.py]. *)
Definition main := main_with select_model.

End vosk_tui.

(* ================================================================== *)
(** ** Vocabulary of the statements *)
(* ================================================================== *)

(** A string made of white space only (the empty string included). *)
Definition all_space (s : str) : Prop := forallb is_space s = true.

(** The first character of a string is not white space (or there is none). *)
Definition starts_clean (s : str) : Prop :=
  match s with [] => True | c :: _ => is_space c = false end.

Definition ends_clean (s : str) : Prop := starts_clean (rev s).

(** *** Sample inputs, used to run the statements on concrete data *)

Definition sample_clock : datetime := mkDatetime 2024 2 29 7 5 9.

Definition later_clock : datetime := mkDatetime 2024 2 29 7 5 10.

Definition sample_args : Namespace :=
  mkNamespace false None (Some 16000%Z) None.

Definition sample_state : LoopState :=
  run_loop (initial_state sample_args)
    [ mkTick (Partial (lit "bore")) sample_clock;
      mkTick (Final (lit "bore da")) sample_clock ].

(** A hub and a disk that always answer: the repository lists [tars], a
    download lands in [/cache/<repo>/<file>], and the unpacked archive
    holds the entries [unpacked], all of them directories. *)
Definition hub_world (tars : list str) (unpacked : list str) : World :=
  {| default_samplerate := fun _ => Ok (Finite (44100 # 1)%Q);
     exists_ := fun _ => Ok false;
     markup := fun _ => Ok tt;
     repo_exists := fun _ => Ok true;
     fs_glob := fun _ => Ok tars;
     hf_hub_download := fun repo file => Ok (lit "/cache/" ++ repo ++ lit "/" ++ file);
     extractall := fun _ _ => Ok tt;
     glob_star := fun _ => unpacked;
     is_dir := fun _ => true;
     Model := fun _ => Ok tt;
     RawInputStream := fun _ _ => Ok tt;
     KaldiRecognizer := fun _ _ => Ok tt |}.

(** The same world with a local disk on which every path exists. *)
Definition local_world : World :=
  {| default_samplerate := default_samplerate (hub_world [] []);
     exists_ := fun _ => Ok true;
     markup := markup (hub_world [] []);
     repo_exists := repo_exists (hub_world [] []);
     fs_glob := fs_glob (hub_world [] []);
     hf_hub_download := hf_hub_download (hub_world [] []);
     extractall := extractall (hub_world [] []);
     glob_star := glob_star (hub_world [] []);
     is_dir := is_dir (hub_world [] []);
     Model := Model (hub_world [] []);
     RawInputStream := RawInputStream (hub_world [] []);
     KaldiRecognizer := KaldiRecognizer (hub_world [] []) |}.

(** The same world with a hub that knows no repository. *)
Definition offline_world : World :=
  {| default_samplerate := default_samplerate (hub_world [] []);
     exists_ := exists_ (hub_world [] []);
     markup := markup (hub_world [] []);
     repo_exists := fun _ => Ok false;
     fs_glob := fs_glob (hub_world [] []);
     hf_hub_download := hf_hub_download (hub_world [] []);
     extractall := extractall (hub_world [] []);
     glob_star := glob_star (hub_world [] []);
     is_dir := is_dir (hub_world [] []);
     Model := Model (hub_world [] []);
     RawInputStream := RawInputStream (hub_world [] []);
     KaldiRecognizer := KaldiRecognizer (hub_world [] []) |}.

(** Number of occurrences of a character. *)
Definition count (c : N) (s : str) : nat := count_occ N.eq_dec s c.

(** What [Model(...)] gives back for a request: the model, or the
    exception of the library. *)
Definition loaded (w : World) (m : model_spec) : result model_spec :=
  match Model w m with Ok _ => Ok m | Raise e => Raise e end.

(** A repository with two archives. *)
Definition two_archives_world : World :=
  hub_world [lit "org/repo/a.tar.gz"; lit "org/repo/b.tar.gz"] [].

Definition unbound_file_id : exn :=
  UnboundLocalError
    (lit "cannot access local variable 'file_id' where it is not associated with a value").

Definition args_with_model (m : str) : Namespace :=
  mkNamespace false None (Some 16000%Z) (Some m).

(** An event that takes a sample rate takes the rate [n]. *)
Definition rate_ok (n : Z) (ev : event) : Prop :=
  match ev with
  | StreamOpen r _ _ => r = n
  | RecognizerNew _ r => r = n
  | _ => True
  end.

Definition farewell : event := Print (newline ++ lit "Done").

Definition unset_args : Namespace := mkNamespace false None None None.

(** The text of [s] before its first [c]; all of [s] when [c] is absent. *)
Fixpoint before_first (c : N) (s : str) : str :=
  match s with
  | [] => []
  | x :: r => if (x =? c)%N then [] else x :: before_first c r
  end.




(** The directory the code unpacks into, said without [Path.stem]: the
    sibling named by the file name up to its first dot. *)
Definition first_dot_dir (archive : Path) : Path :=
  truediv (parent archive) (before_first dot (name archive)).

(** The path handed to [Model] after unpacking into [dest]: the lone entry
    of [dest] if it is a directory, else [dest]. *)
Definition entered_dir (w : World) (dest : Path) : Path :=
  match glob_star w (Path_str dest) with
  | [only] =>
      if is_dir w (Path_str (child_of dest only)) then child_of dest only else dest
  | _ => dest
  end.

(** The [is_dir] question is asked only when [dest] has a single entry. *)
Definition is_dir_events (w : World) (dest : Path) : list event :=
  match glob_star w (Path_str dest) with
  | [only] => [IsDir (Path_str (child_of dest only))]
  | _ => []
  end.



(** A repository whose one archive has a plain name and unpacks into a
    single folder. *)
Definition plain_world : World :=
  hub_world [lit "org/repo/model.tar.gz"] [lit "vosk-model-cy"].

(** The partial text on display after a run of the loop: that of the last
    partial result, the empty string if there was none. *)
Definition next_partial (shown : str) (tk : Tick) : str :=
  match recognized tk with
  | Partial partial => partial
  | Final _ => shown
  end.

Definition last_partial (script : list Tick) : str :=
  fold_left next_partial script [].

Definition live_input (partial : str) : Panel :=
  mkPanel (Text partial) (Some (lit "Live input")).

(** The layout of a run started with [args] whose live panel shows
    [partial]. *)
Definition layout_showing (args : Namespace) (partial : str) : Layout :=
  update "input" (CPanel (live_input partial))
    (update "log" CTextLog (initial_layout args)).

(** A rendering without its header region. *)
Definition without_header (r : result (list (string * Rendered)))
  : result (list (string * Rendered)) :=
  match r with
  | Ok regions => Ok (filter (fun nr => negb (String.eqb (fst nr) "header")) regions)
  | Raise e => Raise e
  end.


(* ================================================================== *)
(** ** The capture callback and the frame queue *)
(* ================================================================== *)

(** The content of an audio buffer: [bytes(indata)]. *)
Definition bytes : Type := list Byte.byte.

(** One call of the audio library into [callback]: the buffer and the
    status flags ([bool(status)] is true when some flag is set). *)
Record Delivery := mkDelivery { indata : bytes; status : N }.

(** What the callback touches: the queue [q] and the error stream. *)
Record Capture := mkCapture { q : list bytes; stderr : list N }.

(** [callback(indata, frames, time, status)]. *)
Definition callback (c : Capture) (d : Delivery) : Capture :=
  {| q := q c ++ [indata d];
     stderr := if (status d =? 0)%N then stderr c else stderr c ++ [status d] |}.

(** [q.get()] on the unbounded FIFO queue: the oldest block and the rest;
    [None] when the queue is empty and the caller has to wait. *)
Definition q_get (blocks : list bytes) : option (bytes * list bytes) :=
  match blocks with
  | [] => None
  | b :: rest => Some (b, rest)
  end.

(** Whose turn it is: the audio thread delivers a block, or the main
    thread asks the queue for one. *)
Inductive Turn : Type :=
| AudioThread (d : Delivery)
| MainThread.

(** The two threads around the queue: what was captured and what the
    loop has taken out so far. *)
Record Session := mkSession { capture : Capture; taken : list bytes }.

Definition turn (s : Session) (t : Turn) : Session :=
  match t with
  | AudioThread d => {| capture := callback (capture s) d; taken := taken s |}
  | MainThread =>
      match q_get (q (capture s)) with
      | Some (b, rest) =>
          {| capture := {| q := rest; stderr := stderr (capture s) |};
             taken := taken s ++ [b] |}
      | None => s
      end
  end.

Definition session (turns : list Turn) : Session :=
  fold_left turn turns {| capture := mkCapture [] []; taken := [] |}.

(** The blocks delivered by the audio thread, in the order of delivery. *)
Definition delivered (turns : list Turn) : list bytes :=
  flat_map (fun t => match t with AudioThread d => [indata d] | MainThread => [] end)
           turns.

(** The statuses that had a flag set, in the order of delivery. *)
Definition reported (turns : list Turn) : list N :=
  flat_map (fun t =>
              match t with
              | AudioThread d => if (status d =? 0)%N then [] else [status d]
              | MainThread => []
              end) turns.

(* ================================================================== *)
(** ** Further vocabulary *)
(* ================================================================== *)

(** The sentences a script makes the loop log: for each finalized result
    whose trimmed text is not empty, the moment and the trimmed text. *)
Definition spoken (script : list Tick) : list (datetime * str) :=
  flat_map (fun tk =>
              match recognized tk with
              | Final text =>
                  if truthy (strip text) then [(now tk, strip text)] else []
              | Partial _ => []
              end) script.

(** A time of day as the clock gives it. *)
Definition valid_time (d : datetime) : Prop :=
  (hour d < 24)%N /\ (minute d < 60)%N /\ (second d < 60)%N.

(** A well-formed log entry: a time stamp and a sentence that is not empty
    and clean at both ends. *)
Definition well_formed_entry (e : str) : Prop :=
  exists clock sentence,
    e = log_entry clock sentence
    /\ sentence <> [] /\ starts_clean sentence /\ ends_clean sentence.

(** Events of the hub and of unpacking. *)
Definition is_hub (ev : event) : bool :=
  match ev with
  | RepoExists _ | HubGlob _ | HubDownload _ _ | TarExtract _ _
  | DirGlob _ | IsDir _ => true
  | _ => false
  end.

(** Events of the audio stream, the recognizer and the live display. *)
Definition is_capture (ev : event) : bool :=
  match ev with
  | StreamOpen _ _ _ | StreamClose | RecognizerNew _ _ | LiveStart | LiveStop => true
  | _ => false
  end.

Definition is_listing (ev : event) : bool :=
  match ev with HubGlob _ => true | _ => false end.

Definition is_model_load (ev : event) : bool :=
  match ev with ModelLoad _ => true | _ => false end.

Definition comma : N := 44.

(** *** Worlds in which one collaborator fails *)

Definition portaudio_error : exn :=
  OtherError "PortAudioError" (lit "Error querying device").

Definition model_error : exn :=
  OtherError "Exception" (lit "Failed to create a model").

Definition network_error : exn :=
  OtherError "ConnectionError" (lit "hub unreachable").


(** [w] with a hub whose downloads fail. *)
Definition failing_download (w : World) : World :=
  {| default_samplerate := default_samplerate w;
     exists_ := exists_ w;
     markup := markup w;
     repo_exists := repo_exists w;
     fs_glob := fs_glob w;
     hf_hub_download := fun _ _ => Raise network_error;
     extractall := extractall w;
     glob_star := glob_star w;
     is_dir := is_dir w;
     Model := Model w;
     RawInputStream := RawInputStream w;
     KaldiRecognizer := KaldiRecognizer w |}.


(** [w] with audio devices that cannot be queried. *)
Definition failing_device (w : World) : World :=
  {| default_samplerate := fun _ => Raise portaudio_error;
     exists_ := exists_ w;
     markup := markup w;
     repo_exists := repo_exists w;
     fs_glob := fs_glob w;
     hf_hub_download := hf_hub_download w;
     extractall := extractall w;
     glob_star := glob_star w;
     is_dir := is_dir w;
     Model := Model w;
     RawInputStream := RawInputStream w;
     KaldiRecognizer := KaldiRecognizer w |}.

(** [w] with models that cannot be created. *)
Definition failing_model (w : World) : World :=
  {| default_samplerate := default_samplerate w;
     exists_ := exists_ w;
     markup := markup w;
     repo_exists := repo_exists w;
     fs_glob := fs_glob w;
     hf_hub_download := hf_hub_download w;
     extractall := extractall w;
     glob_star := glob_star w;
     is_dir := is_dir w;
     Model := fun _ => Raise model_error;
     RawInputStream := RawInputStream w;
     KaldiRecognizer := KaldiRecognizer w |}.

(** [w] with a recognizer that cannot be created. *)
Definition failing_recognizer (w : World) : World :=
  {| default_samplerate := default_samplerate w;
     exists_ := exists_ w;
     markup := markup w;
     repo_exists := repo_exists w;
     fs_glob := fs_glob w;
     hf_hub_download := hf_hub_download w;
     extractall := extractall w;
     glob_star := glob_star w;
     is_dir := is_dir w;
     Model := Model w;
     RawInputStream := RawInputStream w;
     KaldiRecognizer := fun _ _ => Raise model_error |}.

(** [w] with an input stream that cannot be opened. *)
Definition failing_stream (w : World) : World :=
  {| default_samplerate := default_samplerate w;
     exists_ := exists_ w;
     markup := markup w;
     repo_exists := repo_exists w;
     fs_glob := fs_glob w;
     hf_hub_download := hf_hub_download w;
     extractall := extractall w;
     glob_star := glob_star w;
     is_dir := is_dir w;
     Model := Model w;
     RawInputStream := fun _ _ => Raise portaudio_error;
     KaldiRecognizer := KaldiRecognizer w |}.

(** The farewell, when the exception is the one [main] answers. *)
Definition farewell_if (e : exn) : list event :=
  if is_KeyboardInterrupt e then [farewell] else [].

(** The exception that leaves [main] when [e] ends the [try] block. *)
Definition leaves_main (e : exn) : exn :=
  if is_KeyboardInterrupt e then SystemExit 0 else e.

(** The rows of the grid the header draws at a given moment. *)
Definition rows_of_header (clock : datetime) : list (list str) :=
  match renderable (Header.__rich__ clock) with
  | Grid g => rows g
  | Text _ => []
  end.

(** *** Worlds for the error paths of the local and remote checks *)

Definition name_too_long : exn :=
  OtherError "OSError" (lit "[Errno 36] File name too long").

Definition markup_error : exn :=
  OtherError "MarkupError" (lit "closing tag has nothing to close").

(** An identifier of 300 characters. *)
Definition long_name : str := repeat 97%N 300.

(** An empty disk on which, as on Linux, a name of more than 255
    characters cannot even be looked up. *)
Definition long_name_world : World :=
  {| default_samplerate := default_samplerate offline_world;
     exists_ := fun p => if Nat.ltb 255 (length p) then Raise name_too_long else Ok false;
     markup := markup offline_world;
     repo_exists := repo_exists offline_world;
     fs_glob := fs_glob offline_world;
     hf_hub_download := hf_hub_download offline_world;
     extractall := extractall offline_world;
     glob_star := glob_star offline_world;
     is_dir := is_dir offline_world;
     Model := Model offline_world;
     RawInputStream := RawInputStream offline_world;
     KaldiRecognizer := KaldiRecognizer offline_world |}.

(** [w] with a hub that cannot be reached. *)
Definition unreachable_hub (w : World) : World :=
  {| default_samplerate := default_samplerate w;
     exists_ := exists_ w;
     markup := markup w;
     repo_exists := fun _ => Raise network_error;
     fs_glob := fs_glob w;
     hf_hub_download := hf_hub_download w;
     extractall := extractall w;
     glob_star := glob_star w;
     is_dir := is_dir w;
     Model := Model w;
     RawInputStream := RawInputStream w;
     KaldiRecognizer := KaldiRecognizer w |}.

(** [w] with a console that rejects every text holding a square bracket. *)
Definition strict_console (w : World) : World :=
  {| default_samplerate := default_samplerate w;
     exists_ := exists_ w;
     markup := fun _ => Raise markup_error;
     repo_exists := repo_exists w;
     fs_glob := fs_glob w;
     hf_hub_download := hf_hub_download w;
     extractall := extractall w;
     glob_star := glob_star w;
     is_dir := is_dir w;
     Model := Model w;
     RawInputStream := RawInputStream w;
     KaldiRecognizer := KaldiRecognizer w |}.

(** A repository whose one archive has a closing tag in its name. *)
Definition tagged_world : World :=
  strict_console (hub_world [lit "org/repo/[/x].tar.gz"] [lit "model"]).

(** A number written with thousands separators: an optional minus sign,
    then a body that holds the decimal digits of the absolute value in
    order, with a comma at every fourth place counted from the right and
    nowhere else, in particular not in front. *)
Definition thousands_separated (z : Z) (text : str) : Prop :=
  exists body,
    text = (if (z <? 0)%Z then [45%N] else []) ++ body
    /\ filter (fun c => negb (c =? comma)%N) body = digits (Z.to_N (Z.abs z))
    /\ length body
       = length (digits (Z.to_N (Z.abs z)))
         + (length (digits (Z.to_N (Z.abs z))) - 1) / 3
    /\ forall i, i < length body ->
                 (nth i (rev body) 0%N = comma <-> i mod 4 = 3).

(* ================================================================== *)
(** * Properties *)
(* ================================================================== *)

Unset Implicit Arguments.

(** ** Facts about the string operations *)

Section StripFacts.

Lemma str_eqb_eq (a b : str) : str_eqb a b = true <-> a = b.
Proof.
  unfold str_eqb. destruct (list_eq_dec N.eq_dec a b); split; congruence.
Qed.

Lemma lstrip_split (s : str) :
  exists l, s = l ++ lstrip s /\ all_space l.
Proof.
  induction s as [|c r IH]; simpl.
  - exists []. split; reflexivity.
  - destruct (is_space c) eqn:Hc.
    + destruct IH as [l [Hl Hs]]. exists (c :: l). split.
      * simpl. now rewrite <- Hl.
      * unfold all_space. simpl. now rewrite Hc.
    + exists []. split; reflexivity.
Qed.

Lemma lstrip_starts_clean (s : str) : starts_clean (lstrip s).
Proof.
  induction s as [|c r IH]; simpl; [exact I|].
  destruct (is_space c) eqn:Hc; [exact IH | exact Hc].
Qed.

Lemma all_space_rev (s : str) : all_space s -> all_space (rev s).
Proof.
  unfold all_space. rewrite !forallb_forall. intros H x Hx.
  apply H. now apply in_rev.
Qed.

Lemma rstrip_split (s : str) :
  exists r, s = rstrip s ++ r /\ all_space r.
Proof.
  unfold rstrip. destruct (lstrip_split (rev s)) as [l [Hl Hs]].
  exists (rev l). split.
  - rewrite <- rev_app_distr, <- Hl. now rewrite rev_involutive.
  - now apply all_space_rev.
Qed.

Lemma rstrip_ends_clean (s : str) : ends_clean (rstrip s).
Proof.
  unfold ends_clean, rstrip. rewrite rev_involutive.
  apply lstrip_starts_clean.
Qed.

(** Trimming on the right does not disturb a clean start. *)
Lemma rstrip_keeps_start (s : str) : starts_clean s -> starts_clean (rstrip s).
Proof.
  intros Hs. destruct (rstrip_split s) as [r [Hr Hsp]].
  destruct (rstrip s) as [|c t] eqn:E; [exact I|].
  rewrite Hr in Hs. exact Hs.
Qed.

Lemma lstrip_all_space (s : str) : all_space s -> lstrip s = [].
Proof.
  unfold all_space. induction s as [|c r IH]; simpl; [reflexivity|].
  intros H. apply andb_true_iff in H as [Hc Hr]. rewrite Hc. now apply IH.
Qed.

Lemma strip_all_space (s : str) : all_space s -> strip s = [].
Proof.
  intros H. unfold strip. now rewrite (lstrip_all_space _ H).
Qed.

Lemma all_space_app (a b : str) : all_space a -> all_space b -> all_space (a ++ b).
Proof.
  unfold all_space. rewrite forallb_app. intros -> ->. reflexivity.
Qed.

Lemma strip_empty_all_space (s : str) : strip s = [] -> all_space s.
Proof.
  unfold strip. intros H.
  destruct (lstrip_split s) as [l [Hl Hls]].
  destruct (rstrip_split (lstrip s)) as [r [Hr Hrs]].
  rewrite H in Hr. simpl in Hr. rewrite Hl, Hr.
  now apply all_space_app.
Qed.

(** What [strip] returns: the text between a white-space prefix and a
    white-space suffix, itself clean at both ends. *)
Lemma strip_spec (s : str) :
  (exists l r, s = l ++ strip s ++ r /\ all_space l /\ all_space r)
  /\ starts_clean (strip s) /\ ends_clean (strip s).
Proof.
  unfold strip. split; [|split].
  - destruct (lstrip_split s) as [l [Hl Hls]].
    destruct (rstrip_split (lstrip s)) as [r [Hr Hrs]].
    exists l, r. split; [|split]; try assumption.
    now rewrite <- Hr.
  - apply rstrip_keeps_start, lstrip_starts_clean.
  - apply rstrip_ends_clean.
Qed.

Lemma truthy_nonempty (s : str) : truthy s = true <-> s <> [].
Proof.
  destruct s; simpl; split; intros H; congruence.
Qed.

End StripFacts.

Section SliceFacts.

Context {A : Type}.

(** The slice [l[-MAX_SENTENCES:]] keeps the last thirty elements. *)
Lemma slice_from_last (l : list A) :
  slice_from (- MAX_SENTENCES) l = skipn (length l - 30) l.
Proof.
  unfold slice_from, MAX_SENTENCES.
  change (- (30) <? 0)%Z with true. cbv beta iota zeta.
  f_equal. lia.
Qed.

Lemma slice_from_length (l : list A) :
  length (slice_from (- MAX_SENTENCES) l) = Nat.min (length l) 30.
Proof.
  rewrite slice_from_last, length_skipn. lia.
Qed.

Lemma slice_from_suffix (l : list A) :
  l = firstn (length l - 30) l ++ slice_from (- MAX_SENTENCES) l.
Proof.
  rewrite slice_from_last. symmetry. apply firstn_skipn.
Qed.

End SliceFacts.

(** ** Facts about the loop *)

Lemma run_loop_app (st : LoopState) (a b : list Tick) :
  run_loop st (a ++ b) = run_loop (run_loop st a) b.
Proof. unfold run_loop. apply fold_left_app. Qed.

(** The loop only ever appends to [completed_sentences]. *)
Lemma loop_body_extends (st : LoopState) (tk : Tick) :
  exists newer,
    completed_sentences (loop_body st tk) = completed_sentences st ++ newer.
Proof.
  unfold loop_body. destruct (recognized tk) as [text|partial].
  - destruct (truthy (strip text)); simpl.
    + eexists. reflexivity.
    + exists []. now rewrite app_nil_r.
  - exists []. simpl. now rewrite app_nil_r.
Qed.

Lemma run_loop_extends (script : list Tick) : forall st : LoopState,
  exists newer,
    completed_sentences (run_loop st script) = completed_sentences st ++ newer.
Proof.
  induction script as [|tk script IH]; intros st.
  - exists []. simpl. now rewrite app_nil_r.
  - simpl. destruct (IH (loop_body st tk)) as [n2 H2].
    destruct (loop_body_extends st tk) as [n1 H1].
    exists (n1 ++ n2).
    change (run_loop st (tk :: script)) with (run_loop (loop_body st tk) script).
    rewrite H2, H1. now rewrite app_assoc.
Qed.

(** ** The sentence log *)

(** C2. A finalized result whose text is not empty once trimmed makes the
    loop append exactly one entry to the sentence log: the text without its
    leading and trailing white space, behind the [[green][HH:MM:SS]:[reset] ]
    time stamp.  The entries already there stay as they are. *)
Theorem final_sentence_appended (st : LoopState) (text : str) (clock : datetime) :
  strip text <> [] ->
  let st' := loop_body st (mkTick (Final text) clock) in
  completed_sentences st'
  = completed_sentences st
    ++ [lit "[green][" ++ time_isoformat clock ++ lit "]:[reset] " ++ strip text]
  /\ length (completed_sentences st') = S (length (completed_sentences st))
  /\ (exists l r, text = l ++ strip text ++ r /\ all_space l /\ all_space r)
  /\ starts_clean (strip text)
  /\ ends_clean (strip text).
Proof.
  intros Hne st'. subst st'. unfold loop_body. cbn [recognized now].
  apply truthy_nonempty in Hne. rewrite Hne. cbn [completed_sentences].
  destruct (strip_spec text) as [Hmid [Hs He]].
  repeat split; try assumption.
  rewrite length_app. simpl. lia.
Qed.

Lemma final_sentence_appended_witness :
  strip (lit "  bore da ") <> []
  /\ completed_sentences
       (loop_body sample_state (mkTick (Final (lit "  bore da ")) later_clock))
     = completed_sentences sample_state
       ++ [lit "[green][07:05:10]:[reset] bore da"].
Proof.
  split.
  - intro H. vm_compute in H. discriminate H.
  - apply (final_sentence_appended sample_state (lit "  bore da ") later_clock).
    intro H. vm_compute in H. discriminate H.
Defined.

(** C3. A finalized result whose text is empty or white space only leaves
    the loop state, and with it the sentence log, exactly as it was. *)
Theorem blank_final_changes_nothing (st : LoopState) (text : str) (clock : datetime) :
  all_space text ->
  loop_body st (mkTick (Final text) clock) = st
  /\ completed_sentences (loop_body st (mkTick (Final text) clock))
     = completed_sentences st.
Proof.
  intros Hsp. unfold loop_body. cbn [recognized].
  rewrite (strip_all_space _ Hsp). simpl. split; reflexivity.
Qed.

Lemma blank_final_changes_nothing_witness :
  all_space (lit "   ")
  /\ loop_body sample_state (mkTick (Final (lit "   ")) later_clock) = sample_state.
Proof.
  split.
  - reflexivity.
  - apply (blank_final_changes_nothing sample_state (lit "   ") later_clock).
    reflexivity.
Defined.

(** C4. Whatever the length of the sentence list, the log panel shows its
    last [min (length, 30)] entries in the order they were appended, never
    more than 30; the list itself keeps every entry, across rendering and
    across any number of loop passes. *)
Theorem sentence_log_view_capped
    (sentences : list str) (clock : datetime) (st : LoopState) (script : list Tick) :
  let tl := TextLog.mk sentences in
  render_content clock sentences CTextLog = Ok (Drawn (TextLog.__rich__ tl))
  /\ TextLog.__rich__ tl
     = mkPanel (Text (join newline (TextLog.shown tl))) (Some (lit "Sentence log"))
  /\ TextLog.shown tl
     = skipn (length sentences - Nat.min (length sentences) 30) sentences
  /\ length (TextLog.shown tl) = Nat.min (length sentences) 30
  /\ length (TextLog.shown tl) <= 30
  /\ (exists older, TextLog.sentences tl = older ++ TextLog.shown tl)
  /\ (exists newer,
        completed_sentences (run_loop st script) = completed_sentences st ++ newer).
Proof.
  intros tl. subst tl. unfold TextLog.shown. cbn [TextLog.sentences].
  repeat split.
  - rewrite slice_from_last. f_equal. lia.
  - apply slice_from_length.
  - rewrite slice_from_length. lia.
  - eexists. apply slice_from_suffix.
  - apply run_loop_extends.
Qed.

(** ** Laws of the effect monad *)

Section MonadLaws.

Context {A B : Type}.

Lemma bind_ret_l (a : A) (k : A -> M B) : bind (ret a) k = k a.
Proof. unfold bind, ret. destruct (k a). reflexivity. Qed.

Lemma bind_raise_l (e : exn) (k : A -> M B) : bind (raise e) k = raise e.
Proof. reflexivity. Qed.

Lemma trace_bind (m : M A) (k : A -> M B) :
  trace (bind m k)
  = trace m ++ match outcome m with Ok a => trace (k a) | Raise _ => [] end.
Proof.
  destruct m as [t [a|e]]; unfold bind, trace, outcome; simpl.
  - destruct (k a). reflexivity.
  - now rewrite app_nil_r.
Qed.

Lemma outcome_bind (m : M A) (k : A -> M B) :
  outcome (bind m k)
  = match outcome m with Ok a => outcome (k a) | Raise e => Raise e end.
Proof.
  destruct m as [t [a|e]]; unfold bind, outcome; simpl.
  - destruct (k a). reflexivity.
  - reflexivity.
Qed.

Lemma bind_ok (t : list event) (a : A) (k : A -> M B) :
  bind (t, Ok a) k = (t ++ trace (k a), outcome (k a)).
Proof. unfold bind, trace, outcome. destruct (k a). reflexivity. Qed.

Lemma bind_perform_ok (ev : event) (a : A) (k : A -> M B) :
  bind (perform ev (Ok a)) k = (ev :: trace (k a), outcome (k a)).
Proof. unfold bind, perform, trace, outcome. destruct (k a). reflexivity. Qed.

Lemma bind_perform_raise (ev : event) (e : exn) (k : A -> M B) :
  bind (perform ev (@Raise A e)) k = ([ev], Raise e).
Proof. reflexivity. Qed.

End MonadLaws.

Lemma M_eta {A : Type} (m : M A) : m = (trace m, outcome m).
Proof. destruct m. reflexivity. Qed.

(** ** Splitting at a separator *)

Section SplitFacts.

Variable sep : N.

Lemma split_budget_nonempty (b : option nat) (s : str) :
  split_budget sep b s <> [].
Proof.
  destruct s as [|c r]; simpl; [discriminate|].
  destruct (match b with Some 0 => false | _ => (c =? sep)%N end);
    [discriminate|].
  destruct (split_budget sep b r); discriminate.
Qed.

(** Joining the parts with the separator gives the string back. *)
Lemma split_budget_join (s : str) : forall b : option nat,
  join [sep] (split_budget sep b s) = s.
Proof.
  induction s as [|c r IH]; intros b; simpl; [reflexivity|].
  destruct (match b with Some 0 => false | _ => (c =? sep)%N end) eqn:Hcut.
  - assert (Hc : c = sep).
    { destruct b as [[|k]|]; try discriminate; now apply N.eqb_eq. }
    specialize (IH (option_map Nat.pred b)).
    pose proof (split_budget_nonempty (option_map Nat.pred b) r) as Hne.
    destruct (split_budget sep (option_map Nat.pred b) r) as [|p ps];
      [contradiction|].
    change (join [sep] ([] :: p :: ps))
      with ([] ++ [sep] ++ join [sep] (p :: ps)).
    rewrite IH, Hc. reflexivity.
  - specialize (IH b).
    pose proof (split_budget_nonempty b r) as Hne.
    destruct (split_budget sep b r) as [|p ps]; [contradiction|].
    destruct ps as [|q qs].
    + simpl in *. now rewrite IH.
    + change (join [sep] ((c :: p) :: q :: qs))
        with (c :: join [sep] (p :: q :: qs)).
      now rewrite IH.
Qed.

(** A budget of [k] cuts gives [1 + min k (occurrences)] parts. *)
Lemma split_budget_length (s : str) : forall k : nat,
  length (split_budget sep (Some k) s) = S (Nat.min k (count sep s)).
Proof.
  unfold count.
  induction s as [|c r IH]; intros k; simpl.
  - now rewrite Nat.min_0_r.
  - destruct k as [|k].
    + specialize (IH 0).
      destruct (split_budget sep (Some 0) r); simpl in *; [discriminate|].
      exact IH.
    + destruct (N.eqb_spec c sep) as [-> | Hne].
      * simpl. rewrite IH. destruct (N.eq_dec sep sep); [|contradiction].
        reflexivity.
      * specialize (IH (S k)).
        destruct (N.eq_dec c sep); [contradiction|].
        destruct (split_budget sep (Some (S k)) r); simpl in *;
          [discriminate|].
        exact IH.
Qed.

Lemma contains_count (s : str) : contains sep s = false <-> count sep s = 0.
Proof.
  unfold contains, count. induction s as [|c r IH]; simpl.
  - split; reflexivity.
  - destruct (N.eq_dec c sep) as [->|Hne].
    + rewrite N.eqb_refl. simpl. split; discriminate.
    + destruct (N.eqb_spec sep c) as [E|_]; [symmetry in E; contradiction|].
      simpl. exact IH.
Qed.

Lemma count_app (a b : str) : count sep (a ++ b) = count sep a + count sep b.
Proof. unfold count. apply count_occ_app. Qed.

Lemma count_cons_sep (s : str) : count sep (sep :: s) = S (count sep s).
Proof. unfold count. simpl. destruct (N.eq_dec sep sep); congruence. Qed.

End SplitFacts.

(** ** The [repo:file] qualifier *)

Lemma split_two_is_budget (s : str) :
  split colon 2 s = split_budget colon (Some 2) s.
Proof. reflexivity. Qed.

(** With exactly one colon the split has two colon-free parts. *)
Lemma split_one_colon (s : str) :
  count colon s = 1 ->
  exists repo file,
    split colon 2 s = [repo; file]
    /\ s = repo ++ colon :: file
    /\ contains colon repo = false
    /\ contains colon file = false.
Proof.
  intros Hc. rewrite split_two_is_budget.
  pose proof (split_budget_length colon s 2) as Hlen.
  pose proof (split_budget_join colon s (Some 2)) as Hjoin.
  rewrite Hc in Hlen.
  destruct (split_budget colon (Some 2) s) as [|a [|b [|c l]]];
    try discriminate Hlen.
  exists a, b. simpl in Hjoin.
  assert (Hs : s = a ++ colon :: b) by (now rewrite <- Hjoin).
  rewrite Hs, count_app, count_cons_sep in Hc.
  repeat split; try assumption; apply contains_count; lia.
Qed.

(** With two colons or more the split has three parts. *)
Lemma split_many_colons (s : str) :
  2 <= count colon s ->
  exists a b c, split colon 2 s = [a; b; c].
Proof.
  intros Hc. rewrite split_two_is_budget.
  pose proof (split_budget_length colon s 2) as Hlen.
  rewrite Nat.min_l in Hlen by exact Hc.
  destruct (split_budget colon (Some 2) s) as [|a [|b [|c [|d l]]]];
    try discriminate Hlen.
  now exists a, b, c.
Qed.

Lemma count_pos_contains (s : str) :
  1 <= count colon s -> contains colon s = true.
Proof.
  intros H. destruct (contains colon s) eqn:E; [reflexivity|].
  apply contains_count in E. lia.
Qed.

Lemma fetch_starts_with_download (w : World) (repo file : str) :
  hd_error (trace (fetch_and_load w repo (Some file)))
  = Some (HubDownload repo file).
Proof.
  unfold fetch_and_load, read_local. rewrite bind_ret_l.
  destruct (hf_hub_download w repo file) as [p|e].
  - rewrite bind_perform_ok. reflexivity.
  - rewrite bind_perform_raise. reflexivity.
Qed.

(** C10. An identifier with exactly one colon is cut there: the text before
    it is the repository, the text after it the file that is downloaded.
    With two colons or more the split yields three parts, the unpacking into
    two names fails with a [ValueError], and nothing is looked up or
    downloaded. *)
Theorem qualifier_one_colon_only (w : World) (model_id : str) :
  (count colon model_id = 1 ->
   exists repo file,
     model_id = repo ++ colon :: file
     /\ contains colon repo = false
     /\ contains colon file = false
     /\ choose_file w model_id = ([], Ok (repo, Some file))
     /\ load_model_from_huggingface w model_id = fetch_and_load w repo (Some file)
     /\ hd_error (trace (load_model_from_huggingface w model_id))
        = Some (HubDownload repo file))
  /\ (2 <= count colon model_id ->
      load_model_from_huggingface w model_id
      = ([], Raise (ValueError (lit "too many values to unpack (expected 2)")))).
Proof.
  split.
  - intros Hc.
    destruct (split_one_colon model_id Hc) as [repo [file [Hsp [Hs [Hr Hf]]]]].
    assert (Hch : choose_file w model_id = ([], Ok (repo, Some file))).
    { unfold choose_file. rewrite count_pos_contains by lia.
      rewrite Hsp. reflexivity. }
    assert (Hload : load_model_from_huggingface w model_id
                    = fetch_and_load w repo (Some file)).
    { unfold load_model_from_huggingface. rewrite Hch.
      apply (bind_ret_l (repo, Some file)). }
    exists repo, file. repeat split; try assumption.
    rewrite Hload. apply fetch_starts_with_download.
  - intros Hc.
    destruct (split_many_colons model_id Hc) as [a [b [c Hsp]]].
    unfold load_model_from_huggingface, choose_file.
    rewrite count_pos_contains by lia. rewrite Hsp. reflexivity.
Qed.

Lemma qualifier_one_colon_only_witness :
  (count colon (lit "org/repo:model.tar.gz") = 1
   /\ exists repo file,
        lit "org/repo:model.tar.gz" = repo ++ colon :: file
        /\ contains colon repo = false
        /\ contains colon file = false
        /\ choose_file (hub_world [] []) (lit "org/repo:model.tar.gz")
           = ([], Ok (repo, Some file))
        /\ load_model_from_huggingface (hub_world [] []) (lit "org/repo:model.tar.gz")
           = fetch_and_load (hub_world [] []) repo (Some file)
        /\ hd_error (trace (load_model_from_huggingface (hub_world [] [])
                                                         (lit "org/repo:model.tar.gz")))
           = Some (HubDownload repo file))
  /\ (2 <= count colon (lit "org/repo:a:b")
      /\ load_model_from_huggingface (hub_world [] []) (lit "org/repo:a:b")
         = ([], Raise (ValueError (lit "too many values to unpack (expected 2)")))).
Proof.
  split; split.
  - reflexivity.
  - apply (proj1 (qualifier_one_colon_only (hub_world [] []) (lit "org/repo:model.tar.gz"))).
    reflexivity.
  - vm_compute. lia.
  - apply (proj2 (qualifier_one_colon_only (hub_world [] []) (lit "org/repo:a:b"))).
    vm_compute. lia.
Defined.

(** ** Archives in the repository *)

Lemma load_eq (w : World) (m : model_spec) :
  load w m = ([ModelLoad m], loaded w m).
Proof.
  unfold load, loaded, bind, perform, ret.
  destruct (Model w m); reflexivity.
Qed.

(** No archive: the descriptive [FileNotFoundError], and no download. *)
Lemma no_archive_raises (w : World) (model_id : str) :
  contains colon model_id = false ->
  fs_glob w (model_id ++ lit "/*.tar.gz") = Ok [] ->
  load_model_from_huggingface w model_id
  = ([HubGlob (model_id ++ lit "/*.tar.gz")],
     Raise (FileNotFoundError
              (lit "Could not locate a tar.gz in the repo " ++ model_id
               ++ lit ". Use a colon after the model id to specify one"))).
Proof.
  intros Hc Hg. unfold load_model_from_huggingface, choose_file.
  rewrite Hc, Hg. reflexivity.
Qed.

(** Several archives: the [ValueError] is built but never raised, so the
    function goes on to read [file_id], which no branch has bound. *)
Lemma several_archives_raise (w : World) (model_id t1 t2 : str) (more : list str) :
  contains colon model_id = false ->
  fs_glob w (model_id ++ lit "/*.tar.gz") = Ok (t1 :: t2 :: more) ->
  load_model_from_huggingface w model_id
  = ([HubGlob (model_id ++ lit "/*.tar.gz")], Raise unbound_file_id).
Proof.
  intros Hc Hg. unfold load_model_from_huggingface, choose_file.
  rewrite Hc, Hg. reflexivity.
Qed.

(** C1. A repository with two archives and an identifier without qualifier:
    the only exception is the [UnboundLocalError] about [file_id], raised
    after the listing and before any download; the [ValueError] that names
    the ambiguity never leaves the function, and [main] ends on the
    [UnboundLocalError] as well. *)
Theorem ambiguous_archives_error_lost :
  load_model_from_huggingface two_archives_world (lit "org/repo")
  = ([HubGlob (lit "org/repo/*.tar.gz")], Raise unbound_file_id)
  /\ snd (vosk_tui.main two_archives_world (args_with_model (lit "org/repo"))
                        [] KeyboardInterrupt)
     = unbound_file_id
  /\ (forall msg, unbound_file_id <> ValueError msg).
Proof.
  split; [|split].
  - vm_compute. reflexivity.
  - vm_compute. reflexivity.
  - intros msg. discriminate.
Qed.

(** ** Order of the resolution *)

(** C5, as the code has it.  The model is resolved by the first case that
    applies: no identifier gives the built-in [en-us] pack; an identifier
    that the disk reports as an existing path is loaded from that path, the
    only lookup being the one on the local disk; otherwise, in the program
    with the hub, an identifier the hub reports as a repository goes to
    [load_model_from_huggingface]; an identifier for which these checks
    answer no is taken as the name of a built-in language pack.  A check
    that raises ends the resolution with its exception: no later case is
    tried and no model is asked for. *)
Theorem model_resolution_order (w : World) (args : Namespace) :
  (model args = None ->
   vosk_cli.select_model w args
   = ([ModelLoad (ByLang (lit "en-us"))], loaded w (ByLang (lit "en-us")))
   /\ vosk_tui.select_model w args
      = ([ModelLoad (ByLang (lit "en-us"))], loaded w (ByLang (lit "en-us"))))
  /\ (forall m, model args = Some m ->
      exists_ w (Path_str (Path_of m)) = Ok true ->
      vosk_cli.select_model w args
      = ([PathExists (Path_str (Path_of m)); ModelLoad (ByPath m)],
         loaded w (ByPath m))
      /\ vosk_tui.select_model w args
         = ([PathExists (Path_str (Path_of m)); ModelLoad (ByPath m)],
            loaded w (ByPath m)))
  /\ (forall m e, model args = Some m ->
      exists_ w (Path_str (Path_of m)) = Raise e ->
      vosk_cli.select_model w args = ([PathExists (Path_str (Path_of m))], Raise e)
      /\ vosk_tui.select_model w args
         = ([PathExists (Path_str (Path_of m))], Raise e))
  /\ (forall m, model args = Some m ->
      exists_ w (Path_str (Path_of m)) = Ok false ->
      vosk_cli.select_model w args
      = ([PathExists (Path_str (Path_of m)); ModelLoad (ByLang m)],
         loaded w (ByLang m)))
  /\ (forall m, model args = Some m ->
      exists_ w (Path_str (Path_of m)) = Ok false ->
      repo_exists w m = Ok true ->
      vosk_tui.select_model w args
      = (PathExists (Path_str (Path_of m)) :: RepoExists m
           :: trace (load_model_from_huggingface w m),
         outcome (load_model_from_huggingface w m)))
  /\ (forall m, model args = Some m ->
      exists_ w (Path_str (Path_of m)) = Ok false ->
      repo_exists w m = Ok false ->
      vosk_tui.select_model w args
      = ([PathExists (Path_str (Path_of m)); RepoExists m; ModelLoad (ByLang m)],
         loaded w (ByLang m)))
  /\ (forall m e, model args = Some m ->
      exists_ w (Path_str (Path_of m)) = Ok false ->
      repo_exists w m = Raise e ->
      vosk_tui.select_model w args
      = ([PathExists (Path_str (Path_of m)); RepoExists m], Raise e)).
Proof.
  unfold vosk_cli.select_model, vosk_tui.select_model, path_exists.
  repeat split; intros.
  - rewrite H. apply load_eq.
  - rewrite H. apply load_eq.
  - rewrite H, H0, bind_perform_ok, load_eq. reflexivity.
  - rewrite H, H0, bind_perform_ok, load_eq. reflexivity.
  - rewrite H, H0. reflexivity.
  - rewrite H, H0. reflexivity.
  - rewrite H, H0, bind_perform_ok, load_eq. reflexivity.
  - rewrite H, H0, bind_perform_ok, H1, bind_perform_ok. reflexivity.
  - rewrite H, H0, bind_perform_ok, H1, bind_perform_ok, load_eq. reflexivity.
  - rewrite H, H0, bind_perform_ok, H1. reflexivity.
Qed.

Lemma model_resolution_order_witness :
  vosk_tui.select_model offline_world sample_args
  = ([ModelLoad (ByLang (lit "en-us"))], Ok (ByLang (lit "en-us")))
  /\ vosk_tui.select_model local_world (args_with_model (lit "models/cy"))
     = ([PathExists (lit "models/cy"); ModelLoad (ByPath (lit "models/cy"))],
        Ok (ByPath (lit "models/cy")))
  /\ vosk_cli.select_model long_name_world (args_with_model long_name)
     = ([PathExists long_name], Raise name_too_long)
  /\ vosk_cli.select_model offline_world (args_with_model (lit "nl"))
     = ([PathExists (lit "nl"); ModelLoad (ByLang (lit "nl"))], Ok (ByLang (lit "nl")))
  /\ fst (vosk_tui.select_model (hub_world [] []) (args_with_model (lit "org/repo")))
     = [PathExists (lit "org/repo"); RepoExists (lit "org/repo");
        HubGlob (lit "org/repo/*.tar.gz")]
  /\ vosk_tui.select_model offline_world (args_with_model (lit "nl"))
     = ([PathExists (lit "nl"); RepoExists (lit "nl"); ModelLoad (ByLang (lit "nl"))],
        Ok (ByLang (lit "nl")))
  /\ vosk_tui.select_model (unreachable_hub offline_world) (args_with_model (lit "nl"))
     = ([PathExists (lit "nl"); RepoExists (lit "nl")], Raise network_error).
Proof.
  split; [|split; [|split; [|split; [|split; [|split]]]]].
  - apply (proj1 (model_resolution_order offline_world sample_args)).
    reflexivity.
  - apply (proj1 (proj2 (model_resolution_order local_world
                           (args_with_model (lit "models/cy"))))
             (lit "models/cy")); reflexivity.
  - apply (proj1 (proj2 (proj2 (model_resolution_order long_name_world
                                  (args_with_model long_name))))
             long_name name_too_long); reflexivity.
  - apply (proj1 (proj2 (proj2 (proj2 (model_resolution_order offline_world
                                         (args_with_model (lit "nl"))))))
             (lit "nl")); reflexivity.
  - rewrite (proj1 (proj2 (proj2 (proj2 (proj2
               (model_resolution_order (hub_world [] [])
                  (args_with_model (lit "org/repo")))))))
               (lit "org/repo")); reflexivity.
  - apply (proj1 (proj2 (proj2 (proj2 (proj2 (proj2
             (model_resolution_order offline_world
                (args_with_model (lit "nl"))))))))
             (lit "nl")); reflexivity.
  - apply (proj2 (proj2 (proj2 (proj2 (proj2 (proj2
             (model_resolution_order (unreachable_hub offline_world)
                (args_with_model (lit "nl"))))))))
             (lit "nl") network_error); reflexivity.
Defined.

(** C5, as the specification has it, fails: an identifier of 300 characters
    is given, is not an existing path and is not a repository, yet it is
    not taken as the name of a language pack; the lookup on the disk raises
    and both programs end there without asking for any model.  The same
    happens to the identifier [nl] in the program with the hub when the hub
    cannot be reached. *)
Lemma long_identifier_is_no_language_pack :
  model (args_with_model long_name) = Some long_name
  /\ exists_ long_name_world (Path_str (Path_of long_name)) <> Ok true
  /\ repo_exists long_name_world long_name = Ok false
  /\ vosk_cli.select_model long_name_world (args_with_model long_name)
     = ([PathExists long_name], Raise name_too_long)
  /\ vosk_tui.select_model long_name_world (args_with_model long_name)
     = ([PathExists long_name], Raise name_too_long)
  /\ ~ In (ModelLoad (ByLang long_name))
          (trace (vosk_cli.select_model long_name_world (args_with_model long_name)))
  /\ ~ In (ModelLoad (ByLang long_name))
          (trace (vosk_tui.select_model long_name_world (args_with_model long_name)))
  /\ vosk_tui.select_model (unreachable_hub offline_world) (args_with_model (lit "nl"))
     = ([PathExists (lit "nl"); RepoExists (lit "nl")], Raise network_error).
Proof.
  assert (Hc : vosk_cli.select_model long_name_world (args_with_model long_name)
               = ([PathExists long_name], Raise name_too_long))
    by (vm_compute; reflexivity).
  assert (Ht : vosk_tui.select_model long_name_world (args_with_model long_name)
               = ([PathExists long_name], Raise name_too_long))
    by (vm_compute; reflexivity).
  repeat split; try assumption; try (vm_compute; reflexivity).
  - vm_compute. discriminate.
  - rewrite Hc. intros [H|[]]. discriminate H.
  - rewrite Ht. intros [H|[]]. discriminate H.
Qed.

(** ** The [except KeyboardInterrupt] clause *)

(** C7. Whatever ends the [try] block, [main] treats it in one of two ways:
    a [KeyboardInterrupt] is answered by printing the farewell and leaving
    through [exit(0)], status 0; any other exception leaves [main] as it
    is, with nothing printed after it. *)
Theorem only_keyboard_interrupt_is_graceful
    (select : World -> Namespace -> M model_spec)
    (w : World) (args : Namespace) (script : list Tick) (stop : exn) :
  exists t e,
    main_try select w args script stop = (t, Raise e)
    /\ (e = KeyboardInterrupt ->
        main_with select w args script stop = (t ++ [farewell], SystemExit 0)
        /\ exit_status (snd (main_with select w args script stop)) = 0%Z)
    /\ (e <> KeyboardInterrupt ->
        main_with select w args script stop = (t, e)).
Proof.
  destruct (main_try select w args script stop) as [t [v|e]] eqn:E.
  - destruct v.
  - exists t, e. split; [reflexivity|]. unfold main_with. rewrite E. split.
    + intros ->. simpl. split; reflexivity.
    + intros Hne. destruct e; try reflexivity. contradiction.
Qed.

Lemma only_keyboard_interrupt_is_graceful_witness :
  (exists t,
     main_try vosk_cli.select_model offline_world sample_args [] KeyboardInterrupt
     = (t, Raise KeyboardInterrupt)
     /\ vosk_cli.main offline_world sample_args [] KeyboardInterrupt
        = (t ++ [farewell], SystemExit 0))
  /\ (exists t,
        main_try vosk_tui.select_model two_archives_world
                 (args_with_model (lit "org/repo")) [] KeyboardInterrupt
        = (t, Raise unbound_file_id)
        /\ vosk_tui.main two_archives_world (args_with_model (lit "org/repo"))
                         [] KeyboardInterrupt
           = (t, unbound_file_id)).
Proof.
  split.
  - destruct (only_keyboard_interrupt_is_graceful vosk_cli.select_model
                offline_world sample_args [] KeyboardInterrupt)
      as [t [e [Htry [Hki _]]]].
    assert (He : e = KeyboardInterrupt).
    { vm_compute in Htry. congruence. }
    exists t. split.
    + rewrite Htry, He. reflexivity.
    + exact (proj1 (Hki He)).
  - destruct (only_keyboard_interrupt_is_graceful vosk_tui.select_model
                two_archives_world (args_with_model (lit "org/repo"))
                [] KeyboardInterrupt)
      as [t [e [Htry [_ Hother]]]].
    assert (He : e = unbound_file_id).
    { vm_compute in Htry. vm_compute. congruence. }
    exists t. split.
    + rewrite Htry, He. reflexivity.
    + rewrite <- He. apply Hother. rewrite He. discriminate.
Defined.

(** ** The sample rate *)

Section Quiet.

Variable P : event -> Prop.

Lemma quiet_ret {A : Type} (a : A) : Forall P (trace (ret a)).
Proof. constructor. Qed.

Lemma quiet_raise {A : Type} (e : exn) : Forall P (trace (@raise A e)).
Proof. constructor. Qed.

Lemma quiet_perform {A : Type} (ev : event) (r : result A) :
  P ev -> Forall P (trace (perform ev r)).
Proof. intros H. repeat constructor. exact H. Qed.

Lemma quiet_bind {A B : Type} (m : M A) (k : A -> M B) :
  Forall P (trace m) -> (forall a, Forall P (trace (k a))) ->
  Forall P (trace (bind m k)).
Proof.
  intros Hm Hk. rewrite trace_bind. apply Forall_app. split; [exact Hm|].
  destruct (outcome m); [apply Hk | constructor].
Qed.

Lemma quiet_with {A : Type} (enter : M unit) (exit_ev : event) (body : M A) :
  Forall P (trace enter) -> P exit_ev -> Forall P (trace body) ->
  Forall P (trace (with_ enter exit_ev body)).
Proof.
  intros He Hx Hb. unfold with_. apply quiet_bind; [exact He|]. intros _.
  destruct body as [t r]. unfold trace in *. simpl in *.
  apply Forall_app. split; [exact Hb|]. repeat constructor. exact Hx.
Qed.

End Quiet.

Ltac quiet_step :=
  match goal with
  | |- Forall _ (trace (ret _)) => apply quiet_ret
  | |- Forall _ (trace (raise _)) => apply quiet_raise
  | |- Forall _ (trace (perform _ _)) => apply quiet_perform; exact I
  | |- Forall _ (trace (bind _ _)) => apply quiet_bind; [|intros ?]
  | |- Forall _ (trace (match ?x with _ => _ end)) => destruct x
  | |- Forall _ (trace (if ?x then _ else _)) => destruct x
  end.

Ltac quiet := repeat quiet_step.

(** Looking for the model touches neither the stream nor the recognizer. *)
Lemma hub_load_rate_free (n : Z) (w : World) (model_id : str) :
  Forall (rate_ok n) (trace (load_model_from_huggingface w model_id)).
Proof.
  unfold load_model_from_huggingface, choose_file, fetch_and_load,
    read_local, print.
  quiet.
Qed.

Lemma cli_select_rate_free (n : Z) (w : World) (args : Namespace) :
  Forall (rate_ok n) (trace (vosk_cli.select_model w args)).
Proof.
  unfold vosk_cli.select_model, load, path_exists. quiet.
Qed.

Lemma tui_select_rate_free (n : Z) (w : World) (args : Namespace) :
  Forall (rate_ok n) (trace (vosk_tui.select_model w args)).
Proof.
  unfold vosk_tui.select_model, load, path_exists. quiet.
  apply hub_load_rate_free.
Qed.

(** A text without a square bracket is always printed. *)
Lemma console_plain (w : World) (s : str) :
  contains bracket s = false -> console w s = Ok tt.
Proof. intros H. unfold console. now rewrite H. Qed.

Lemma uint_digits_no_bracket (u : Decimal.uint) :
  contains bracket (uint_digits u) = false.
Proof. induction u; cbn; auto. Qed.

Lemma str_of_int_no_bracket (z : Z) : contains bracket (str_of_int z) = false.
Proof.
  unfold str_of_int, digits. destruct (z <? 0)%Z.
  - unfold contains. cbn [existsb]. apply uint_digits_no_bracket.
  - apply uint_digits_no_bracket.
Qed.

(** The message about the sample rate holds no markup. *)
Lemma rate_message_printed (w : World) (n : Z) :
  console w (lit "Using a sample rate of " ++ str_of_int n) = Ok tt.
Proof.
  apply console_plain. unfold contains. rewrite existsb_app.
  change (existsb (N.eqb bracket) (str_of_int n))
    with (contains bracket (str_of_int n)).
  rewrite str_of_int_no_bracket. reflexivity.
Qed.

(** The first statement of the [try] block when [-r] was not given. *)
Lemma resolve_unset (w : World) (args : Namespace) (f : PyFloat) (n : Z) :
  samplerate args = None ->
  default_samplerate w (device args) = Ok f ->
  int_of_float f = Ok n ->
  resolve_samplerate w args
  = ([QueryDevices (device args);
      Print (lit "Using a sample rate of " ++ str_of_int n)],
     Ok (set_samplerate args n)).
Proof.
  intros Hnone Hdev Hint. unfold resolve_samplerate.
  rewrite Hnone, Hdev. unfold bind, perform, print, ret.
  rewrite Hint, rate_message_printed. reflexivity.
Qed.

Section MainRates.

Variable select : World -> Namespace -> M model_spec.

Hypothesis select_rate_free :
  forall n w args, Forall (rate_ok n) (trace (select w args)).

(** Once the rate is settled, the stream and the recognizer get that rate. *)
Lemma main_resolved_rates (w : World) (args : Namespace)
    (script : list Tick) (stop : exn) :
  Forall (rate_ok (rate_of args)) (trace (main_resolved select w args script stop)).
Proof.
  unfold main_resolved.
  apply quiet_bind; [apply select_rate_free|]. intros model.
  apply quiet_with; [apply quiet_perform; reflexivity | exact I |].
  apply quiet_bind; [apply quiet_perform; reflexivity|]. intros _.
  apply quiet_with; [apply quiet_perform; exact I | exact I |].
  apply quiet_raise.
Qed.

(** The events of [main] are those of the [try] block, then at most the
    farewell. *)
Lemma main_with_trace (w : World) (args : Namespace)
    (script : list Tick) (stop : exn) :
  exists tail,
    fst (main_with select w args script stop)
    = trace (main_try select w args script stop) ++ tail
    /\ (tail = [] \/ tail = [farewell]).
Proof.
  unfold main_with.
  destruct (main_try select w args script stop) as [t [v|e]]; [destruct v|].
  destruct (is_KeyboardInterrupt e).
  - exists [farewell]. split; [reflexivity | now right].
  - exists []. split; [simpl; now rewrite app_nil_r | now left].
Qed.

Lemma main_rates_unset (w : World) (args : Namespace)
    (script : list Tick) (stop : exn) (f : PyFloat) (n : Z) :
  samplerate args = None ->
  default_samplerate w (device args) = Ok f ->
  int_of_float f = Ok n ->
  exists rest,
    fst (main_with select w args script stop)
    = QueryDevices (device args)
        :: Print (lit "Using a sample rate of " ++ str_of_int n) :: rest
    /\ Forall (rate_ok n) rest.
Proof.
  intros Hnone Hdev Hint.
  destruct (main_with_trace w args script stop) as [tail [Ht Htail]].
  pose proof (resolve_unset w args f n Hnone Hdev Hint) as Hres.
  rewrite Ht. unfold main_try. rewrite trace_bind, Hres.
  cbn [trace outcome fst snd app].
  eexists. split; [reflexivity|].
  apply Forall_app. split.
  - apply (main_resolved_rates w (set_samplerate args n)).
  - destruct Htail as [-> | ->]; repeat constructor.
Qed.

Lemma main_rates_set (w : World) (args : Namespace)
    (script : list Tick) (stop : exn) (r : Z) :
  samplerate args = Some r ->
  Forall (rate_ok r) (fst (main_with select w args script stop)).
Proof.
  intros Hsome.
  destruct (main_with_trace w args script stop) as [tail [Ht Htail]].
  rewrite Ht. unfold main_try, resolve_samplerate. rewrite Hsome.
  rewrite (bind_ret_l args). apply Forall_app. split.
  - replace r with (rate_of args) by (unfold rate_of; now rewrite Hsome).
    apply main_resolved_rates.
  - destruct Htail as [-> | ->]; repeat constructor.
Qed.

End MainRates.

(** C9. Without [-r] the sample rate is the default rate of the selected
    device turned into an integer: the device is asked first, before any
    model is loaded or any stream opened, and every later use of a rate,
    by the stream and by the recognizer, is that integer.  With [-r] the
    device is not asked and the given integer is used as it is. *)
Theorem samplerate_resolution
    (w : World) (args : Namespace) (script : list Tick) (stop : exn) :
  (samplerate args = None ->
   forall f n,
     default_samplerate w (device args) = Ok f ->
     int_of_float f = Ok n ->
     resolve_samplerate w args
     = ([QueryDevices (device args);
         Print (lit "Using a sample rate of " ++ str_of_int n)],
        Ok (set_samplerate args n))
     /\ (exists rest,
           fst (vosk_cli.main w args script stop)
           = QueryDevices (device args)
               :: Print (lit "Using a sample rate of " ++ str_of_int n) :: rest
           /\ Forall (rate_ok n) rest)
     /\ (exists rest,
           fst (vosk_tui.main w args script stop)
           = QueryDevices (device args)
               :: Print (lit "Using a sample rate of " ++ str_of_int n) :: rest
           /\ Forall (rate_ok n) rest))
  /\ (forall r,
        samplerate args = Some r ->
        resolve_samplerate w args = ([], Ok args)
        /\ Forall (rate_ok r) (fst (vosk_cli.main w args script stop))
        /\ Forall (rate_ok r) (fst (vosk_tui.main w args script stop))).
Proof.
  split.
  - intros Hnone f n Hdev Hint. split; [|split].
    + now apply resolve_unset with (f := f).
    + apply (main_rates_unset _ cli_select_rate_free w args script stop f n);
        assumption.
    + apply (main_rates_unset _ tui_select_rate_free w args script stop f n);
        assumption.
  - intros r Hsome. split; [|split].
    + unfold resolve_samplerate. now rewrite Hsome.
    + apply (main_rates_set _ cli_select_rate_free); assumption.
    + apply (main_rates_set _ tui_select_rate_free); assumption.
Qed.

Lemma samplerate_resolution_witness :
  resolve_samplerate offline_world unset_args
  = ([QueryDevices None; Print (lit "Using a sample rate of 44100")],
     Ok (set_samplerate unset_args 44100))
  /\ (resolve_samplerate offline_world sample_args = ([], Ok sample_args)
      /\ Forall (rate_ok 16000)
                (fst (vosk_cli.main offline_world sample_args [] KeyboardInterrupt))).
Proof.
  split.
  - apply (proj1 (samplerate_resolution offline_world unset_args [] KeyboardInterrupt)
             eq_refl (Finite (44100 # 1)%Q) 44100%Z eq_refl eq_refl).
  - split.
    + apply (proj2 (samplerate_resolution offline_world sample_args [] KeyboardInterrupt)
               16000%Z eq_refl).
    + apply (proj2 (samplerate_resolution offline_world sample_args [] KeyboardInterrupt)
               16000%Z eq_refl).
Defined.

(** ** The directory an archive is unpacked into *)

Section DotFacts.

Lemma hd_split_before_first (c : N) (s : str) :
  hd [] (split c (-1) s) = before_first c s.
Proof.
  change (split c (-1) s) with (split_budget c None s).
  induction s as [|x r IH]; simpl; [reflexivity|].
  destruct (x =? c)%N; [reflexivity|].
  pose proof (split_budget_nonempty c None r) as Hne.
  destruct (split_budget c None r) as [|p ps]; [contradiction|].
  simpl in *. now rewrite IH.
Qed.

(** Cutting a string at one of its [c] does not change what comes before
    the first [c]. *)
Lemma before_first_firstn (c : N) (s : str) : forall i : nat,
  i < length s -> nth i s 0%N = c ->
  before_first c (firstn i s) = before_first c s.
Proof.
  induction s as [|x r IH]; intros i Hi Hn; simpl in *; [lia|].
  destruct i as [|j]; simpl.
  - subst x. now rewrite N.eqb_refl.
  - destruct (x =? c)%N; [reflexivity|].
    f_equal. apply IH; [lia | exact Hn].
Qed.

(** [rfind_from] returns the fallback or the position of some [c]. *)
Lemma rfind_from_spec (c : N) (s : str) : forall k found : Z,
  rfind_from c s k found = found
  \/ exists j, j < length s /\ nth j s 0%N = c
               /\ rfind_from c s k found = (k + Z.of_nat j)%Z.
Proof.
  induction s as [|x r IH]; intros k found; simpl; [now left|].
  destruct (IH (k + 1)%Z (if (x =? c)%N then k else found))
    as [Hsame | [j [Hj [Hn He]]]].
  - destruct (N.eqb_spec x c) as [Hx|Hx].
    + right. exists 0. repeat split; [lia | exact Hx | rewrite Hsame; lia].
    + now left.
  - right. exists (S j). repeat split; [lia | exact Hn | rewrite He; lia].
Qed.

(** The first dot-separated part of the stem is the file name up to its
    first dot. *)
Lemma stem_before_first_dot (p : Path) :
  hd [] (split dot (-1) (stem p)) = before_first dot (name p).
Proof.
  rewrite hd_split_before_first. unfold stem.
  destruct ((0 <? rfind dot (name p))
            && (rfind dot (name p) <? Z.of_nat (length (name p)) - 1))%Z eqn:E;
    [|reflexivity].
  apply andb_true_iff in E as [Hpos _]. apply Z.ltb_lt in Hpos.
  unfold rfind in *.
  destruct (rfind_from_spec dot (name p) 0 (-1)) as [Hf | [j [Hj [Hn He]]]].
  - rewrite Hf in Hpos. lia.
  - rewrite He. rewrite Z.add_0_l, Nat2Z.id.
    now apply before_first_firstn.
Qed.

Lemma extraction_dir_eq (archive : Path) :
  extraction_dir archive = first_dot_dir archive.
Proof.
  unfold extraction_dir, first_dot_dir. now rewrite stem_before_first_dot.
Qed.


End DotFacts.

(** The first half on a repository with a single archive. *)
Lemma choose_single (w : World) (model_id tar0 : str) :
  contains colon model_id = false ->
  fs_glob w (model_id ++ lit "/*.tar.gz") = Ok [tar0] ->
  console w (lit "Resolved model tar file to be " ++ tar0) = Ok tt ->
  choose_file w model_id
  = ([HubGlob (model_id ++ lit "/*.tar.gz");
      Print (lit "Resolved model tar file to be " ++ tar0)],
     Ok (model_id, Some (removeprefix (lit "/") (removeprefix model_id tar0)))).
Proof.
  intros Hc Hg Hp. unfold choose_file. rewrite Hc, Hg, bind_perform_ok.
  cbv beta iota. unfold print. rewrite Hp. reflexivity.
Qed.

(** The first half when the message about the archive cannot be printed:
    [file_id] is never bound. *)
Lemma choose_single_unprintable (w : World) (model_id tar0 : str) (e : exn) :
  contains colon model_id = false ->
  fs_glob w (model_id ++ lit "/*.tar.gz") = Ok [tar0] ->
  console w (lit "Resolved model tar file to be " ++ tar0) = Raise e ->
  choose_file w model_id
  = ([HubGlob (model_id ++ lit "/*.tar.gz");
      Print (lit "Resolved model tar file to be " ++ tar0)],
     Raise e).
Proof.
  intros Hc Hg Hp. unfold choose_file. rewrite Hc, Hg, bind_perform_ok.
  cbv beta iota. unfold print. rewrite Hp. reflexivity.
Qed.

(** The second half when the download, the message and the unpacking
    succeed. *)
Lemma fetch_and_load_ok (w : World) (repo file downloaded : str) :
  hf_hub_download w repo file = Ok downloaded ->
  console w (lit "Extracting model to "
             ++ Path_str (first_dot_dir (Path_of downloaded))) = Ok tt ->
  extractall w (Path_str (Path_of downloaded))
             (Path_str (first_dot_dir (Path_of downloaded))) = Ok tt ->
  fetch_and_load w repo (Some file)
  = ([HubDownload repo file;
      Print (lit "Extracting model to "
             ++ Path_str (first_dot_dir (Path_of downloaded)));
      TarExtract (Path_str (Path_of downloaded))
                 (Path_str (first_dot_dir (Path_of downloaded)));
      DirGlob (Path_str (first_dot_dir (Path_of downloaded)))]
     ++ is_dir_events w (first_dot_dir (Path_of downloaded))
     ++ [ModelLoad (ByPath (Path_str
           (entered_dir w (first_dot_dir (Path_of downloaded)))))],
     loaded w (ByPath (Path_str
       (entered_dir w (first_dot_dir (Path_of downloaded)))))).
Proof.
  intros Hd Hp He. unfold fetch_and_load, read_local.
  rewrite bind_ret_l, Hd, bind_perform_ok. cbv zeta.
  rewrite !extraction_dir_eq.
  set (dest := first_dot_dir (Path_of downloaded)) in *.
  unfold print. rewrite Hp, bind_perform_ok, He, bind_perform_ok, bind_perform_ok.
  unfold is_dir_events, entered_dir, loaded.
  destruct (glob_star w (Path_str dest)) as [|only [|another more]];
    cbn [map]; unfold bind, perform, ret, trace, outcome; cbn [fst snd app];
    try destruct (is_dir w (Path_str (child_of dest only)));
    cbn [fst snd app];
    match goal with
    | |- context [Model w ?m] => destruct (Model w m)
    end; reflexivity.
Qed.

Lemma startswith_app (p q : str) : startswith p (p ++ q) = true.
Proof.
  induction p as [|a p IH]; simpl; [reflexivity|].
  now rewrite N.eqb_refl, IH.
Qed.






(** ** The dashboard *)

Section Dashboard.

Variable args : Namespace.

Lemma initial_state_layout :
  layout (initial_state args) = layout_showing args [].
Proof. reflexivity. Qed.

Lemma loop_body_layout (st : LoopState) (tk : Tick) (shown : str) :
  layout st = layout_showing args shown ->
  layout (loop_body st tk) = layout_showing args (next_partial shown tk).
Proof.
  intros H. unfold loop_body, next_partial.
  destruct (recognized tk) as [text|partial].
  - destruct (truthy (strip text)); cbn [layout]; rewrite H; reflexivity.
  - cbn [layout]. rewrite H. reflexivity.
Qed.

Lemma run_loop_layout (script : list Tick) : forall (st : LoopState) (shown : str),
  layout st = layout_showing args shown ->
  layout (run_loop st script)
  = layout_showing args (fold_left next_partial script shown).
Proof.
  induction script as [|tk script IH]; intros st shown H; [exact H|].
  apply (IH (loop_body st tk)). now apply loop_body_layout.
Qed.

(** The layout of a run depends on its past only through the last partial
    text. *)
Lemma reached_layout (script : list Tick) :
  layout (run_loop (initial_state args) script)
  = layout_showing args (last_partial script).
Proof. apply run_loop_layout, initial_state_layout. Qed.

(** The four regions of a rendering. *)
Lemma dashboard_regions (clock : datetime) (st : LoopState) (shown : str) :
  layout st = layout_showing args shown ->
  dashboard clock st
  = match Footer.__rich__ (Footer.mk args) with
    | Ok footer_panel =>
        Ok [("header", Drawn (Header.__rich__ clock));
            ("log", Drawn (TextLog.__rich__ (TextLog.mk (completed_sentences st))));
            ("input", Drawn (live_input shown));
            ("footer", Drawn footer_panel)]
    | Raise e => Raise e
    end.
Proof.
  intros H. unfold dashboard, render. rewrite H.
  change (regions (layout_showing args shown))
    with [("header", CHeader); ("log", CTextLog);
          ("input", CPanel (live_input shown));
          ("footer", CFooter (Footer.mk args))].
  cbn [render_regions render_content].
  destruct (Footer.__rich__ (Footer.mk args)); reflexivity.
Qed.

End Dashboard.

(** C8, as the code has it.  A rendering is a function of the arguments,
    the sentence list, the partial text and the wall clock: two runs with
    the same arguments that hold the same sentences and show the same
    partial text render alike at the same moment, whatever else they went
    through; the moment itself only shows in the header, the three other
    regions being the same at any two moments. *)
Theorem dashboard_determined
    (args : Namespace) (script1 script2 : list Tick) (clock clock' : datetime) :
  let st1 := run_loop (initial_state args) script1 in
  let st2 := run_loop (initial_state args) script2 in
  (completed_sentences st1 = completed_sentences st2 ->
   last_partial script1 = last_partial script2 ->
   dashboard clock st1 = dashboard clock st2)
  /\ without_header (dashboard clock st1) = without_header (dashboard clock' st1)
  /\ (forall r, samplerate args = Some r ->
      exists footer_panel,
        Footer.__rich__ (Footer.mk args) = Ok footer_panel
        /\ dashboard clock st1
           = Ok [("header", Drawn (Header.__rich__ clock));
                 ("log", Drawn (TextLog.__rich__
                                  (TextLog.mk (completed_sentences st1))));
                 ("input", Drawn (live_input (last_partial script1)));
                 ("footer", Drawn footer_panel)]).
Proof.
  intros st1 st2.
  pose proof (reached_layout args script1) as H1.
  pose proof (reached_layout args script2) as H2.
  fold st1 in H1. fold st2 in H2.
  split; [|split].
  - intros Hs Hp.
    rewrite (dashboard_regions args clock st1 _ H1).
    rewrite (dashboard_regions args clock st2 _ H2).
    now rewrite Hs, Hp.
  - rewrite (dashboard_regions args clock st1 _ H1).
    rewrite (dashboard_regions args clock' st1 _ H1).
    destruct (Footer.__rich__ (Footer.mk args)); reflexivity.
  - intros r Hr. rewrite (dashboard_regions args clock st1 _ H1).
    unfold Footer.__rich__. cbn [Footer.args]. rewrite Hr.
    eexists. split; reflexivity.
Qed.

Lemma dashboard_determined_witness :
  dashboard sample_clock
    (run_loop (initial_state sample_args)
       [ mkTick (Final (lit "bore da")) sample_clock;
         mkTick (Partial (lit "bore")) sample_clock ])
  = dashboard sample_clock
      (run_loop (initial_state sample_args)
         [ mkTick (Partial (lit "nos")) sample_clock;
           mkTick (Partial (lit "bore")) sample_clock;
           mkTick (Final (lit "  ")) later_clock;
           mkTick (Final (lit " bore da")) sample_clock ])
  /\ exists footer_panel,
       Footer.__rich__ (Footer.mk sample_args) = Ok footer_panel
       /\ dashboard sample_clock
            (run_loop (initial_state sample_args)
               [ mkTick (Final (lit "bore da")) sample_clock;
                 mkTick (Partial (lit "bore")) sample_clock ])
          = Ok [("header", Drawn (Header.__rich__ sample_clock));
                ("log", Drawn (TextLog.__rich__
                                 (TextLog.mk [lit "[green][07:05:09]:[reset] bore da"])));
                ("input", Drawn (live_input (lit "bore")));
                ("footer", Drawn footer_panel)].
Proof.
  pose proof (dashboard_determined sample_args
                [ mkTick (Final (lit "bore da")) sample_clock;
                  mkTick (Partial (lit "bore")) sample_clock ]
                [ mkTick (Partial (lit "nos")) sample_clock;
                  mkTick (Partial (lit "bore")) sample_clock;
                  mkTick (Final (lit "  ")) later_clock;
                  mkTick (Final (lit " bore da")) sample_clock ]
                sample_clock later_clock) as [Hsame [_ Hshape]].
  split.
  - apply Hsame; reflexivity.
  - exact (Hshape 16000%Z eq_refl).
Defined.

(** C8, as the specification has it, fails: the same state, rendered at two
    moments, gives two different screens, because the header shows the
    clock. *)
Lemma header_follows_the_clock :
  dashboard sample_clock sample_state <> dashboard later_clock sample_state.
Proof.
  intros H.
  assert (Hh : Header.__rich__ sample_clock = Header.__rich__ later_clock).
  { vm_compute in H. vm_compute. congruence. }
  vm_compute in Hh. discriminate Hh.
Qed.

(* ================================================================== *)
(** * Further properties of the code *)
(* ================================================================== *)

(** ** The processing loop over a whole script *)

Lemma spoken_app (a b : list Tick) : spoken (a ++ b) = spoken a ++ spoken b.
Proof. unfold spoken. apply flat_map_app. Qed.

Lemma loop_body_log (st : LoopState) (tk : Tick) :
  completed_sentences (loop_body st tk)
  = completed_sentences st
    ++ map (fun cs => log_entry (fst cs) (snd cs)) (spoken [tk]).
Proof.
  unfold loop_body, spoken. cbn [flat_map].
  destruct (recognized tk) as [text|partial].
  - destruct (truthy (strip text)); cbn; [reflexivity | now rewrite app_nil_r].
  - cbn. now rewrite app_nil_r.
Qed.

Lemma run_loop_log (script : list Tick) : forall st : LoopState,
  completed_sentences (run_loop st script)
  = completed_sentences st
    ++ map (fun cs => log_entry (fst cs) (snd cs)) (spoken script).
Proof.
  induction script as [|tk script IH]; intros st.
  - cbn. now rewrite app_nil_r.
  - change (run_loop st (tk :: script)) with (run_loop (loop_body st tk) script).
    rewrite IH, loop_body_log.
    change (tk :: script) with ([tk] ++ script).
    rewrite spoken_app, map_app, app_assoc. reflexivity.
Qed.

(** X1. After any script the sentence log is what it was, followed by one
    entry per finalized result with non-blank text, in the order the results
    arrived; partial results and blank finals add nothing. *)
Theorem log_is_the_spoken_sentences (st : LoopState) (script : list Tick) :
  completed_sentences (run_loop st script)
  = completed_sentences st
    ++ map (fun cs => log_entry (fst cs) (snd cs)) (spoken script)
  /\ length (completed_sentences (run_loop st script))
     = length (completed_sentences st) + length (spoken script)
  /\ Forall (fun cs => snd cs <> [] /\ starts_clean (snd cs) /\ ends_clean (snd cs))
            (spoken script).
Proof.
  split; [apply run_loop_log | split].
  - rewrite run_loop_log, length_app, length_map. reflexivity.
  - unfold spoken. apply Forall_flat_map, Forall_forall. intros tk _.
    destruct (recognized tk) as [text|partial]; [|constructor].
    destruct (truthy (strip text)) eqn:E; [|constructor].
    constructor; [|constructor]. cbn [snd].
    destruct (strip_spec text) as [_ [Hs He]].
    split; [now apply truthy_nonempty | split; assumption].
Qed.

(** X2. Every entry of the log of a run is well formed: a time stamp
    followed by a sentence that is not empty and has no white space at
    either end. *)
Theorem log_entries_well_formed (args : Namespace) (script : list Tick) :
  Forall well_formed_entry
         (completed_sentences (run_loop (initial_state args) script)).
Proof.
  rewrite run_loop_log. cbn [initial_state completed_sentences app].
  apply Forall_map, Forall_flat_map, Forall_forall. intros tk _.
  destruct (recognized tk) as [text|partial]; [|constructor].
  destruct (truthy (strip text)) eqn:E; [|constructor].
  constructor; [|constructor]. cbn [fst snd].
  destruct (strip_spec text) as [_ [Hs He]].
  exists (now tk), (strip text).
  split; [reflexivity | split; [now apply truthy_nonempty | split; assumption]].
Qed.

(** A number below one hundred prints as two digits. *)
Lemma two_length (n : N) : (n < 100)%N -> length (two n) = 2.
Proof.
  intros H.
  assert (Hall : forallb (fun k => Nat.eqb (length (two (N.of_nat k))) 2) (seq 0 100) = true)
    by (vm_compute; reflexivity).
  rewrite forallb_forall in Hall.
  specialize (Hall (N.to_nat n)). rewrite N2Nat.id in Hall.
  apply Nat.eqb_eq, Hall, in_seq. lia.
Qed.

Lemma time_isoformat_length (clock : datetime) :
  valid_time clock -> length (time_isoformat clock) = 8.
Proof.
  intros [Hh [Hm Hs]]. unfold time_isoformat.
  rewrite !length_app, !two_length by lia. reflexivity.
Qed.

(** X3. For a time of day the clock can show, the time stamp is eight
    characters long, an entry is the sentence behind a prefix of 26
    characters, and the sentence and the time stamp can be read back from
    the entry. *)
Theorem log_entry_reads_back (clock : datetime) (sentence : str) :
  valid_time clock ->
  length (log_entry clock sentence) = 26 + length sentence
  /\ skipn 26 (log_entry clock sentence) = sentence
  /\ firstn 8 (skipn 8 (log_entry clock sentence)) = time_isoformat clock.
Proof.
  intros Hv. pose proof (time_isoformat_length clock Hv) as Hlen.
  assert (Hpre : log_entry clock sentence
                 = (lit "[green][" ++ time_isoformat clock ++ lit "]:[reset] ")
                   ++ sentence).
  { unfold log_entry. now rewrite <- !app_assoc. }
  assert (Hp : length (lit "[green][" ++ time_isoformat clock ++ lit "]:[reset] ") = 26).
  { rewrite !length_app, Hlen. reflexivity. }
  split; [|split].
  - rewrite Hpre, length_app, Hp. reflexivity.
  - rewrite Hpre, skipn_app, Hp, Nat.sub_diag.
    rewrite skipn_all2 by lia. reflexivity.
  - unfold log_entry. rewrite skipn_app.
    change (length (lit "[green][")) with 8.
    rewrite Nat.sub_diag, skipn_all2 by (cbn; lia).
    cbn [app skipn]. rewrite firstn_app, Hlen, Nat.sub_diag.
    rewrite firstn_all2 by lia. cbn [firstn]. apply app_nil_r.
Qed.

Lemma log_entry_reads_back_witness :
  valid_time later_clock
  /\ skipn 26 (log_entry later_clock (lit "bore da")) = lit "bore da".
Proof.
  assert (Hv : valid_time later_clock) by (vm_compute; repeat split; reflexivity).
  split; [exact Hv|].
  exact (proj1 (proj2 (log_entry_reads_back later_clock (lit "bore da") Hv))).
Defined.

Lemma last_partial_snoc (script : list Tick) (tk : Tick) :
  last_partial (script ++ [tk]) = next_partial (last_partial script) tk.
Proof. unfold last_partial. now rewrite fold_left_app. Qed.

(** X4. The live panel keeps no history and is not cleared by a finalized
    result: after a partial result it shows exactly that partial text and
    the log is untouched; after a finalized result, blank or not, every
    region of the layout holds what it held before, so the panel goes on
    showing the last partial text. *)
Theorem live_panel_after_a_result
    (args : Namespace) (script : list Tick) (text : str) (clock : datetime) :
  let before := run_loop (initial_state args) script in
  let after_final :=
    run_loop (initial_state args) (script ++ [mkTick (Final text) clock]) in
  let after_partial :=
    run_loop (initial_state args) (script ++ [mkTick (Partial text) clock]) in
  layout after_final = layout before
  /\ layout after_final = layout_showing args (last_partial script)
  /\ layout after_partial = layout_showing args text
  /\ completed_sentences after_partial = completed_sentences before.
Proof.
  cbv zeta. rewrite !reached_layout, !last_partial_snoc.
  repeat split. rewrite run_loop_app. reflexivity.
Qed.

(** ** The window of the sentence log *)

Lemma tl_skipn {A : Type} (l : list A) : forall k, tl (skipn k l) = skipn (S k) l.
Proof.
  induction l as [|x r IH]; intros k.
  - destruct k; reflexivity.
  - destruct k as [|k]; [reflexivity|]. cbn [skipn]. rewrite IH. reflexivity.
Qed.

(** X5. Appending a sentence moves the window of the log by one: while
    fewer than 30 sentences are held the new one is added to the view; from
    30 on the oldest visible sentence leaves the view as the new one comes
    in. *)
Theorem log_view_scrolls (sentences : list str) (sentence : str) :
  (length sentences < 30 ->
   TextLog.shown (TextLog.mk (sentences ++ [sentence]))
   = TextLog.shown (TextLog.mk sentences) ++ [sentence])
  /\ (30 <= length sentences ->
      TextLog.shown (TextLog.mk (sentences ++ [sentence]))
      = tl (TextLog.shown (TextLog.mk sentences)) ++ [sentence]).
Proof.
  unfold TextLog.shown. cbn [TextLog.sentences].
  rewrite !slice_from_last, length_app. cbn [length].
  split; intros H.
  - replace (length sentences + 1 - 30) with 0 by lia.
    replace (length sentences - 30) with 0 by lia. reflexivity.
  - rewrite tl_skipn, skipn_app.
    replace (length sentences + 1 - 30) with (S (length sentences - 30)) by lia.
    replace (S (length sentences - 30) - length sentences) with 0 by lia.
    reflexivity.
Qed.

Lemma log_view_scrolls_witness :
  (length [lit "un"; lit "dau"] < 30
   /\ TextLog.shown (TextLog.mk ([lit "un"; lit "dau"] ++ [lit "tri"]))
      = TextLog.shown (TextLog.mk [lit "un"; lit "dau"]) ++ [lit "tri"])
  /\ (30 <= length (repeat (lit "un") 30)
      /\ TextLog.shown (TextLog.mk (repeat (lit "un") 30 ++ [lit "tri"]))
         = tl (TextLog.shown (TextLog.mk (repeat (lit "un") 30))) ++ [lit "tri"]).
Proof.
  split; split.
  - cbn. lia.
  - apply (proj1 (log_view_scrolls [lit "un"; lit "dau"] (lit "tri"))). cbn. lia.
  - cbn. lia.
  - apply (proj2 (log_view_scrolls (repeat (lit "un") 30) (lit "tri"))). cbn. lia.
Defined.

(** ** The thousands separator of the footer *)

Lemma uint_digits_no_comma (u : Decimal.uint) :
  Forall (fun c => (c =? comma)%N = false) (uint_digits u).
Proof. induction u; cbn; constructor; auto. Qed.

Lemma group3_rev_filter (ds : str) : forall k : nat,
  Forall (fun c => (c =? comma)%N = false) ds ->
  filter (fun c => negb (c =? comma)%N) (group3_rev k ds) = ds.
Proof.
  induction ds as [|d r IH]; intros k H; [reflexivity|].
  inversion H as [|? ? Hd Hr]; subst.
  destruct k as [|[|[|[|k]]]]; cbn [group3_rev filter];
    try change (44 =? comma)%N with true; cbn [negb];
    rewrite Hd; cbn [negb]; now rewrite IH.
Qed.

(** Taking the commas out of a number formatted with [:,] gives the plain
    decimal text of that number; below one thousand there is no comma. *)
Lemma format_comma_reads_back (z : Z) :
  filter (fun c => negb (c =? comma)%N) (format_comma z) = str_of_int z
  /\ (z < 1000 -> -1000 < z -> format_comma z = str_of_int z)%Z.
Proof.
  assert (Hbody : forall n,
            filter (fun c => negb (c =? comma)%N)
                   (rev (group3_rev 0 (rev (digits n)))) = digits n).
  { intros n. rewrite filter_rev, group3_rev_filter.
    - apply rev_involutive.
    - apply Forall_rev, uint_digits_no_comma. }
  split.
  - unfold format_comma, str_of_int. destruct (z <? 0)%Z eqn:E.
    + cbn [filter]. change (45 =? comma)%N with false. cbn [negb].
      rewrite Hbody. do 2 f_equal. apply Z.ltb_lt in E. lia.
    + rewrite Hbody. do 2 f_equal. apply Z.ltb_ge in E. lia.
  - intros Hhi Hlo.
    assert (Hall : forallb (fun k => str_eqb (format_comma (Z.of_nat k - 999))
                                             (str_of_int (Z.of_nat k - 999)))
                           (seq 0 1999) = true) by (vm_compute; reflexivity).
    rewrite forallb_forall in Hall.
    specialize (Hall (Z.to_nat (z + 999))).
    replace (Z.of_nat (Z.to_nat (z + 999)) - 999)%Z with z in Hall by lia.
    apply str_eqb_eq, Hall, in_seq. lia.
Qed.

(** Where [group3_rev] puts its commas, [k] digits of the current group
    being already placed. *)
Lemma group3_rev_commas (ds : str) : forall k i : nat,
  k <= 3 ->
  Forall (fun c => (c =? comma)%N = false) ds ->
  i < length (group3_rev k ds) ->
  (nth i (group3_rev k ds) 0%N = comma <-> (i + k) mod 4 = 3).
Proof.
  induction ds as [|d r IH]; intros k i Hk Hds Hi; [cbn in Hi; lia|].
  inversion Hds as [|? ? Hd Hr]; subst.
  apply N.eqb_neq in Hd.
  destruct k as [|[|[|[|k]]]]; try lia; cbn [group3_rev] in *.
  - destruct i as [|i]; cbn [nth length] in *.
    + split; [intros E; contradiction | cbn; discriminate].
    + rewrite (IH 1 i) by (assumption || lia).
      replace (S i + 0) with (i + 1) by lia. reflexivity.
  - destruct i as [|i]; cbn [nth length] in *.
    + split; [intros E; contradiction | cbn; discriminate].
    + rewrite (IH 2 i) by (assumption || lia).
      replace (S i + 1) with (i + 2) by lia. reflexivity.
  - destruct i as [|i]; cbn [nth length] in *.
    + split; [intros E; contradiction | cbn; discriminate].
    + rewrite (IH 3 i) by (assumption || lia).
      replace (S i + 2) with (i + 3) by lia. reflexivity.
  - destruct i as [|[|i]]; cbn [nth length] in *.
    + split; reflexivity.
    + split; [intros E; contradiction | cbn; discriminate].
    + rewrite (IH 1 i) by (assumption || lia).
      replace (S (S i) + 3) with (i + 1 + 1 * 4) by lia.
      rewrite Nat.Div0.mod_add. reflexivity.
Qed.

(** How long the grouped text is. *)
Lemma group3_rev_length (ds : str) : forall k : nat,
  k <= 3 ->
  length (group3_rev k ds) = length ds + (length ds + k - 1) / 3.
Proof.
  induction ds as [|d r IH]; intros k Hk.
  - cbn [group3_rev length]. destruct k as [|[|[|[|k]]]]; try lia; reflexivity.
  - destruct k as [|[|[|[|k]]]]; try lia; cbn [group3_rev length].
    + rewrite (IH 1) by lia.
      replace (S (length r) + 0 - 1) with (length r + 1 - 1) by lia. lia.
    + rewrite (IH 2) by lia.
      replace (S (length r) + 1 - 1) with (length r + 2 - 1) by lia. lia.
    + rewrite (IH 3) by lia.
      replace (S (length r) + 2 - 1) with (length r + 3 - 1) by lia. lia.
    + rewrite (IH 1) by lia.
      replace (S (length r) + 3 - 1) with (length r + 1 - 1 + 1 * 3) by lia.
      rewrite Nat.div_add by lia. lia.
Qed.

(** [format_comma] writes its number with thousands separators. *)
Lemma format_comma_separated (z : Z) : thousands_separated z (format_comma z).
Proof.
  exists (rev (group3_rev 0 (rev (digits (Z.to_N (Z.abs z)))))).
  assert (Hd : Forall (fun c => (c =? comma)%N = false)
                      (rev (digits (Z.to_N (Z.abs z)))))
    by (apply Forall_rev, uint_digits_no_comma).
  split; [|split; [|split]].
  - unfold format_comma. destruct (z <? 0)%Z; reflexivity.
  - rewrite filter_rev, group3_rev_filter by exact Hd. apply rev_involutive.
  - rewrite length_rev, group3_rev_length, length_rev by lia.
    f_equal. f_equal. lia.
  - intros i Hi. rewrite rev_involutive. rewrite length_rev in Hi.
    rewrite (group3_rev_commas _ 0 i) by (assumption || lia).
    now rewrite Nat.add_0_r.
Qed.

(** Two texts of one length with commas at the same places and the same
    other characters in the same order are the same text. *)
Lemma same_commas_same_text (l l' : str) : forall P : nat -> Prop,
  length l = length l' ->
  (forall i, i < length l -> (nth i l 0%N = comma <-> P i)) ->
  (forall i, i < length l' -> (nth i l' 0%N = comma <-> P i)) ->
  filter (fun c => negb (c =? comma)%N) l = filter (fun c => negb (c =? comma)%N) l' ->
  l = l'.
Proof.
  revert l'. induction l as [|x r IH]; intros l' P Hlen Hl Hl' Hf.
  - destruct l'; [reflexivity | discriminate Hlen].
  - destruct l' as [|x' r']; [discriminate Hlen|].
    cbn [length] in *. injection Hlen as Hlen.
    assert (Hrest : forall i, i < length r -> (nth i r 0%N = comma <-> P (S i)))
      by (intros i Hi; apply (Hl (S i)); lia).
    assert (Hrest' : forall i, i < length r' -> (nth i r' 0%N = comma <-> P (S i)))
      by (intros i Hi; apply (Hl' (S i)); lia).
    pose proof (Hl 0 ltac:(lia)) as H0. pose proof (Hl' 0 ltac:(lia)) as H0'.
    cbn [nth] in H0, H0'. cbn [filter] in Hf.
    destruct (N.eqb_spec x comma) as [Ex|Ex];
      destruct (N.eqb_spec x' comma) as [Ex'|Ex']; cbn [negb] in Hf.
    + subst. f_equal. exact (IH r' (fun i => P (S i)) Hlen Hrest Hrest' Hf).
    + exfalso. apply Ex'. apply H0'. apply H0. exact Ex.
    + exfalso. apply Ex. apply H0. apply H0'. exact Ex'.
    + injection Hf as Hx Hf. subst x'. f_equal.
      exact (IH r' (fun i => P (S i)) Hlen Hrest Hrest' Hf).
Qed.

(** There is one way only to write a number with thousands separators. *)
Lemma thousands_separated_unique (z : Z) (a b : str) :
  thousands_separated z a -> thousands_separated z b -> a = b.
Proof.
  intros [ba [Ha [Hfa [Hla Hpa]]]] [bb [Hb [Hfb [Hlb Hpb]]]].
  rewrite Ha, Hb. f_equal.
  rewrite <- (rev_involutive ba), <- (rev_involutive bb). f_equal.
  apply (same_commas_same_text (rev ba) (rev bb) (fun i => i mod 4 = 3)).
  - rewrite !length_rev. congruence.
  - intros i Hi. apply Hpa. now rewrite length_rev in Hi.
  - intros i Hi. apply Hpb. now rewrite length_rev in Hi.
  - rewrite !filter_rev. congruence.
Qed.

(** X6. With a sample rate in the arguments the footer reads
    [Model: <m> | Sample rate: <R> | Block size: 8,000], where [<R>] is the
    rate written with thousands separators, the one text that holds the
    decimal digits of the rate in order with a comma at every fourth place
    from the right and nowhere else, behind a minus sign for a negative
    rate, and [<m>] is the model identifier, or [en-us] when none or an
    empty one was given.  Without a sample rate the footer cannot be
    formatted and raises a [TypeError]. *)
Theorem footer_shows_model_and_rate (args : Namespace) :
  (forall r, samplerate args = Some r ->
   exists shown R,
     Footer.__rich__ (Footer.mk args)
     = Ok (mkPanel (Text (lit "Model: " ++ shown ++ lit " | Sample rate: " ++ R
                          ++ lit " | Block size: 8,000"))
                   (Some (lit "Parameters")))
     /\ thousands_separated r R
     /\ (forall R', thousands_separated r R' -> R' = R)
     /\ filter (fun c => negb (c =? comma)%N) R = str_of_int r
     /\ (model args = None \/ model args = Some [] -> shown = lit "en-us")
     /\ (forall m, model args = Some m -> m <> [] -> shown = m))
  /\ (samplerate args = None ->
      exists msg, Footer.__rich__ (Footer.mk args) = Raise (TypeError msg)).
Proof.
  split.
  - intros r Hr. unfold Footer.__rich__. cbn [Footer.args]. rewrite Hr.
    exists (match model args with
            | Some m => if truthy m then m else lit "en-us"
            | None => lit "en-us"
            end), (format_comma r).
    split; [|split; [|split; [|split; [|split]]]].
    + cbn [join]. rewrite <- !app_assoc. reflexivity.
    + apply format_comma_separated.
    + intros R' HR'.
      exact (thousands_separated_unique r R' (format_comma r) HR'
               (format_comma_separated r)).
    + apply format_comma_reads_back.
    + intros [-> | ->]; reflexivity.
    + intros m -> Hm. destruct m; [contradiction | reflexivity].
  - intros Hn. unfold Footer.__rich__. cbn [Footer.args]. rewrite Hn.
    eexists. reflexivity.
Qed.

Lemma footer_shows_model_and_rate_witness :
  (exists shown,
     Footer.__rich__ (Footer.mk (args_with_model (lit "nl")))
     = Ok (mkPanel (Text (lit "Model: " ++ shown ++ lit " | Sample rate: "
                          ++ lit "16,000" ++ lit " | Block size: 8,000"))
                   (Some (lit "Parameters")))
     /\ shown = lit "nl")
  /\ exists msg, Footer.__rich__ (Footer.mk unset_args) = Raise (TypeError msg).
Proof.
  split.
  - destruct (proj1 (footer_shows_model_and_rate (args_with_model (lit "nl")))
                    16000%Z eq_refl) as [shown [R [Hp [HR [Hu [_ [_ Hm]]]]]]].
    assert (H16 : lit "16,000" = R).
    { apply Hu. exists (lit "16,000").
      split; [reflexivity | split; [reflexivity | split; [reflexivity|]]].
      intros i Hi. cbn in Hi.
      do 6 (destruct i as [|i]; [cbn; split; (reflexivity || discriminate)|]).
      lia. }
    exists shown. split.
    + rewrite H16. exact Hp.
    + apply (Hm (lit "nl") eq_refl). discriminate.
  - exact (proj2 (footer_shows_model_and_rate unset_args) eq_refl).
Defined.

(** ** Start-up *)

Ltac silent_step :=
  match goal with
  | |- Forall _ (trace (ret _)) => apply quiet_ret
  | |- Forall _ (trace (raise _)) => apply quiet_raise
  | |- Forall _ (trace (_, _)) => apply Forall_nil
  | |- Forall _ (trace (perform _ _)) => apply quiet_perform; reflexivity
  | |- Forall _ (trace (print _ _)) => apply quiet_perform; reflexivity
  | |- Forall _ (trace (load _ _)) => unfold load
  | |- Forall _ (trace (path_exists _ _)) => unfold path_exists
  | |- Forall _ (trace (read_local _ _)) => unfold read_local
  | |- Forall _ (trace (with_ _ _ _)) => apply quiet_with; [|reflexivity|]
  | |- Forall _ (trace (bind _ _)) => apply quiet_bind; [|intros ?]
  | |- Forall _ (trace (match ?x with _ => _ end)) => destruct x
  | |- Forall _ (trace (if ?x then _ else _)) => destruct x
  | |- Forall _ (trace (let _ := _ in _)) => cbv zeta
  end.

Ltac silent := repeat silent_step.

(** What a successful [resolve_samplerate] returns. *)
Lemma resolve_ok_inv (w : World) (args0 args : Namespace) (t : list event) :
  resolve_samplerate w args0 = (t, Ok args) ->
  exists r,
    samplerate args = Some r
    /\ device args = device args0
    /\ model args = model args0
    /\ list_devices args = list_devices args0
    /\ (forall r0, samplerate args0 = Some r0 -> r0 = r /\ t = [])
    /\ (samplerate args0 = None ->
        exists f, default_samplerate w (device args0) = Ok f
                  /\ int_of_float f = Ok r
                  /\ t = [QueryDevices (device args0);
                          Print (lit "Using a sample rate of " ++ str_of_int r)]).
Proof.
  unfold resolve_samplerate. destruct (samplerate args0) as [r0|] eqn:Hs.
  - intros H. injection H as <- <-. exists r0.
    repeat split; try assumption; congruence.
  - destruct (default_samplerate w (device args0)) as [f|e] eqn:Hd;
      [|discriminate].
    destruct (int_of_float f) as [r|e] eqn:Hi;
      unfold bind, perform, print, ret; rewrite Hi;
      [rewrite rate_message_printed | discriminate].
    intros H. injection H as <- <-. exists r.
    repeat split; try discriminate.
    intros _. exists f. repeat split; assumption.
Qed.

(** X7. When the first statement of [main] succeeds, the arguments it
    leaves carry a sample rate, the one given with [-r] if there was one,
    and the same device and model as before; and the dashboard of every
    state the loop can reach from there renders, with the four regions
    header, log, input and footer in this order. *)
Theorem resolved_arguments_render
    (w : World) (args0 args : Namespace) (t : list event)
    (script : list Tick) (clock : datetime) :
  resolve_samplerate w args0 = (t, Ok args) ->
  (exists r, samplerate args = Some r
             /\ (forall r0, samplerate args0 = Some r0 -> r0 = r))
  /\ device args = device args0
  /\ model args = model args0
  /\ exists regions,
       dashboard clock (run_loop (initial_state args) script) = Ok regions
       /\ map fst regions = ["header"; "log"; "input"; "footer"].
Proof.
  intros H.
  destruct (resolve_ok_inv w args0 args t H) as [r [Hr [Hd [Hm [_ [Hset _]]]]]].
  split; [|split; [|split]]; try assumption.
  - exists r. split; [exact Hr|]. intros r0 H0. now apply Hset.
  - rewrite (dashboard_regions args clock _ _ (reached_layout args script)).
    unfold Footer.__rich__. cbn [Footer.args]. rewrite Hr.
    eexists. split; reflexivity.
Qed.

Lemma resolved_arguments_render_witness :
  exists regions,
    dashboard sample_clock
      (run_loop (initial_state (set_samplerate unset_args 44100))
                [mkTick (Partial (lit "bore")) sample_clock])
    = Ok regions
    /\ map fst regions = ["header"; "log"; "input"; "footer"].
Proof.
  exact (proj2 (proj2 (proj2
           (resolved_arguments_render offline_world unset_args
              (set_samplerate unset_args 44100)
              [QueryDevices None; Print (lit "Using a sample rate of 44100")]
              [mkTick (Partial (lit "bore")) sample_clock] sample_clock
              eq_refl)))).
Defined.

(** X8. When [-r] is missing and the device cannot be asked, or answers
    with a rate that is not a finite number, [main] stops there: the query
    is its only effect, no model is looked for and no stream is opened, and
    the exception leaves [main] (a [KeyboardInterrupt] being answered by the
    farewell as anywhere else). *)
Theorem device_failure_stops_startup
    (select : World -> Namespace -> M model_spec)
    (w : World) (args : Namespace) (script : list Tick) (stop e : exn) :
  samplerate args = None ->
  (default_samplerate w (device args) = Raise e
   \/ exists f, default_samplerate w (device args) = Ok f
                /\ int_of_float f = Raise e) ->
  main_with select w args script stop
  = if is_KeyboardInterrupt e
    then ([QueryDevices (device args); farewell], SystemExit 0)
    else ([QueryDevices (device args)], e).
Proof.
  intros Hs Hfail.
  assert (Hres : resolve_samplerate w args = ([QueryDevices (device args)], Raise e)).
  { unfold resolve_samplerate. rewrite Hs.
    destruct Hfail as [Hd | [f [Hd Hi]]]; rewrite Hd; [reflexivity|].
    unfold bind, perform. rewrite Hi. reflexivity. }
  unfold main_with, main_try. rewrite Hres.
  change (bind ([QueryDevices (device args)], @Raise Namespace e) ?k)
    with ([QueryDevices (device args)], @Raise Empty_set e).
  cbv iota. destruct (is_KeyboardInterrupt e); reflexivity.
Qed.

Lemma device_failure_stops_startup_witness :
  vosk_tui.main (failing_device offline_world) unset_args [] KeyboardInterrupt
  = ([QueryDevices None], portaudio_error).
Proof.
  apply (device_failure_stops_startup vosk_tui.select_model
           (failing_device offline_world) unset_args [] KeyboardInterrupt
           portaudio_error eq_refl).
  left. reflexivity.
Defined.

Section AfterResolve.

Variable select : World -> Namespace -> M model_spec.
Variables (w : World) (args0 args : Namespace) (t : list event).
Variables (script : list Tick) (stop : exn).

Hypothesis resolved : resolve_samplerate w args0 = (t, Ok args).

Lemma main_try_after_resolve :
  main_try select w args0 script stop
  = (t ++ trace (main_resolved select w args script stop),
     outcome (main_resolved select w args script stop)).
Proof.
  unfold main_try. rewrite resolved.
  exact (bind_ok t args (fun a => main_resolved select w a script stop)).
Qed.

Lemma main_with_of_try (tr : list event) (e : exn) :
  main_try select w args0 script stop = (tr, Raise e) ->
  main_with select w args0 script stop = (tr ++ farewell_if e, leaves_main e).
Proof.
  intros H. unfold main_with, farewell_if, leaves_main. rewrite H.
  destruct (is_KeyboardInterrupt e); [reflexivity | now rewrite app_nil_r].
Qed.

(** A model that cannot be resolved ends the [try] block at once. *)
Lemma main_try_select_fails (e : exn) :
  outcome (select w args) = Raise e ->
  main_try select w args0 script stop
  = (t ++ trace (select w args), Raise e).
Proof.
  intros H. rewrite main_try_after_resolve. unfold main_resolved.
  rewrite trace_bind, outcome_bind, H, app_nil_r. reflexivity.
Qed.

(** The three ways the rest of the [try] block can go once the model is
    there. *)
Lemma main_try_select_ok (ts : list event) (m : model_spec) :
  select w args = (ts, Ok m) ->
  main_try select w args0 script stop
  = match RawInputStream w (rate_of args) (device args) with
    | Raise e =>
        (t ++ ts ++ [StreamOpen (rate_of args) 8000 (device args)], Raise e)
    | Ok _ =>
        match KaldiRecognizer w m (rate_of args) with
        | Raise e =>
            (t ++ ts ++ [StreamOpen (rate_of args) 8000 (device args);
                         RecognizerNew m (rate_of args); StreamClose],
             Raise e)
        | Ok _ =>
            (t ++ ts ++ [StreamOpen (rate_of args) 8000 (device args);
                         RecognizerNew m (rate_of args);
                         LiveStart; LiveStop; StreamClose],
             Raise stop)
        end
    end.
Proof.
  intros H. rewrite main_try_after_resolve. unfold main_resolved.
  rewrite H, bind_ok. cbn [trace outcome fst snd].
  unfold with_, perform, bind, raise.
  destruct (RawInputStream w (rate_of args) (device args)) as [u|e];
    [|reflexivity].
  destruct (KaldiRecognizer w m (rate_of args)) as [u'|e]; reflexivity.
Qed.

End AfterResolve.

Lemma resolve_opens_nothing (w : World) (args : Namespace) :
  Forall (fun ev => is_capture ev = false) (trace (resolve_samplerate w args)).
Proof. unfold resolve_samplerate. silent. Qed.

Lemma hub_load_opens_nothing (w : World) (model_id : str) :
  Forall (fun ev => is_capture ev = false)
         (trace (load_model_from_huggingface w model_id)).
Proof.
  unfold load_model_from_huggingface, choose_file, fetch_and_load. silent.
Qed.

Lemma cli_select_opens_nothing (w : World) (args : Namespace) :
  Forall (fun ev => is_capture ev = false) (trace (vosk_cli.select_model w args)).
Proof. unfold vosk_cli.select_model. silent. Qed.

Lemma tui_select_opens_nothing (w : World) (args : Namespace) :
  Forall (fun ev => is_capture ev = false) (trace (vosk_tui.select_model w args)).
Proof.
  unfold vosk_tui.select_model. silent. apply hub_load_opens_nothing.
Qed.

Lemma farewell_if_opens_nothing (e : exn) :
  Forall (fun ev => is_capture ev = false) (farewell_if e).
Proof.
  unfold farewell_if. destruct (is_KeyboardInterrupt e); repeat constructor.
Qed.

(** X9. When the model cannot be resolved (a missing or unreadable pack, a
    repository without archive, a failed download or unpacking), [main]
    ends right after the attempt: the exception leaves it, and neither the
    input stream, nor the recognizer, nor the live display was ever
    started. *)
Theorem model_failure_opens_no_stream
    (w : World) (args0 args : Namespace) (t : list event)
    (script : list Tick) (stop e : exn) :
  resolve_samplerate w args0 = (t, Ok args) ->
  (outcome (vosk_cli.select_model w args) = Raise e ->
   vosk_cli.main w args0 script stop
   = (t ++ trace (vosk_cli.select_model w args) ++ farewell_if e, leaves_main e)
   /\ Forall (fun ev => is_capture ev = false)
             (fst (vosk_cli.main w args0 script stop)))
  /\ (outcome (vosk_tui.select_model w args) = Raise e ->
      vosk_tui.main w args0 script stop
      = (t ++ trace (vosk_tui.select_model w args) ++ farewell_if e, leaves_main e)
      /\ Forall (fun ev => is_capture ev = false)
                (fst (vosk_tui.main w args0 script stop))).
Proof.
  intros Hres.
  assert (Ht : Forall (fun ev => is_capture ev = false) t).
  { pose proof (resolve_opens_nothing w args0) as H. now rewrite Hres in H. }
  split; intros Hsel.
  - assert (Hmain : vosk_cli.main w args0 script stop
                    = (t ++ trace (vosk_cli.select_model w args) ++ farewell_if e,
                       leaves_main e)).
    { unfold vosk_cli.main.
      rewrite (main_with_of_try _ w args0 script stop _ e
                 (main_try_select_fails _ w args0 args t script stop Hres e Hsel)).
      now rewrite <- app_assoc. }
    split; [exact Hmain|]. rewrite Hmain. cbn [fst].
    repeat (apply Forall_app; split); try assumption.
    + apply cli_select_opens_nothing.
    + apply farewell_if_opens_nothing.
  - assert (Hmain : vosk_tui.main w args0 script stop
                    = (t ++ trace (vosk_tui.select_model w args) ++ farewell_if e,
                       leaves_main e)).
    { unfold vosk_tui.main.
      rewrite (main_with_of_try _ w args0 script stop _ e
                 (main_try_select_fails _ w args0 args t script stop Hres e Hsel)).
      now rewrite <- app_assoc. }
    split; [exact Hmain|]. rewrite Hmain. cbn [fst].
    repeat (apply Forall_app; split); try assumption.
    + apply tui_select_opens_nothing.
    + apply farewell_if_opens_nothing.
Qed.

Lemma model_failure_opens_no_stream_witness :
  vosk_cli.main (failing_model offline_world) (args_with_model (lit "nl"))
                [] KeyboardInterrupt
  = ([PathExists (lit "nl"); ModelLoad (ByLang (lit "nl"))], model_error)
  /\ vosk_tui.main (failing_download plain_world) (args_with_model (lit "org/repo"))
                   [] KeyboardInterrupt
     = ([PathExists (lit "org/repo"); RepoExists (lit "org/repo");
         HubGlob (lit "org/repo/*.tar.gz");
         Print (lit "Resolved model tar file to be org/repo/model.tar.gz");
         HubDownload (lit "org/repo") (lit "model.tar.gz")],
        network_error).
Proof.
  split.
  - apply (proj1 (model_failure_opens_no_stream (failing_model offline_world)
                    (args_with_model (lit "nl")) (args_with_model (lit "nl")) []
                    [] KeyboardInterrupt model_error eq_refl)).
    reflexivity.
  - apply (proj2 (model_failure_opens_no_stream (failing_download plain_world)
                    (args_with_model (lit "org/repo"))
                    (args_with_model (lit "org/repo")) []
                    [] KeyboardInterrupt network_error eq_refl)).
    reflexivity.
Defined.

(** X10. Once the model is there, the stream is opened, then the
    recognizer created, then the live display started; whatever ends the
    run, the display is stopped before the stream is closed, a stream that
    was opened is always closed, and one that failed to open is not.  The
    loop itself has no effect outside the display: the events do not depend
    on the script. *)
Theorem capture_is_cleaned_up
    (select : World -> Namespace -> M model_spec)
    (w : World) (args0 args : Namespace) (t ts : list event) (m : model_spec)
    (script : list Tick) (stop : exn) :
  resolve_samplerate w args0 = (t, Ok args) ->
  select w args = (ts, Ok m) ->
  let opened := StreamOpen (rate_of args) 8000 (device args) in
  let recognizer := RecognizerNew m (rate_of args) in
  (forall e, RawInputStream w (rate_of args) (device args) = Raise e ->
   main_with select w args0 script stop
   = (t ++ ts ++ [opened] ++ farewell_if e, leaves_main e))
  /\ (forall e, RawInputStream w (rate_of args) (device args) = Ok tt ->
      KaldiRecognizer w m (rate_of args) = Raise e ->
      main_with select w args0 script stop
      = (t ++ ts ++ [opened; recognizer; StreamClose] ++ farewell_if e,
         leaves_main e))
  /\ (RawInputStream w (rate_of args) (device args) = Ok tt ->
      KaldiRecognizer w m (rate_of args) = Ok tt ->
      main_with select w args0 script stop
      = (t ++ ts ++ [opened; recognizer; LiveStart; LiveStop; StreamClose]
           ++ farewell_if stop,
         leaves_main stop)).
Proof.
  intros Hres Hsel opened recognizer.
  pose proof (main_try_select_ok select w args0 args t script stop Hres ts m Hsel)
    as Htry.
  split; [|split].
  - intros e Hs. rewrite Hs in Htry.
    rewrite (main_with_of_try _ _ _ _ _ _ _ Htry).
    now rewrite <- !app_assoc.
  - intros e Hs Hk. rewrite Hs, Hk in Htry.
    rewrite (main_with_of_try _ _ _ _ _ _ _ Htry).
    now rewrite <- !app_assoc.
  - intros Hs Hk. rewrite Hs, Hk in Htry.
    rewrite (main_with_of_try _ _ _ _ _ _ _ Htry).
    now rewrite <- !app_assoc.
Qed.

Lemma capture_is_cleaned_up_witness :
  vosk_cli.main (failing_stream offline_world) sample_args [] KeyboardInterrupt
  = ([ModelLoad (ByLang (lit "en-us")); StreamOpen 16000 8000 None],
     portaudio_error)
  /\ vosk_cli.main (failing_recognizer offline_world) sample_args [] KeyboardInterrupt
     = ([ModelLoad (ByLang (lit "en-us")); StreamOpen 16000 8000 None;
         RecognizerNew (ByLang (lit "en-us")) 16000; StreamClose],
        model_error)
  /\ vosk_cli.main offline_world sample_args
                   [mkTick (Final (lit "bore da")) sample_clock] KeyboardInterrupt
     = ([ModelLoad (ByLang (lit "en-us")); StreamOpen 16000 8000 None;
         RecognizerNew (ByLang (lit "en-us")) 16000;
         LiveStart; LiveStop; StreamClose; farewell],
        SystemExit 0).
Proof.
  split; [|split].
  - exact (proj1 (capture_is_cleaned_up vosk_cli.select_model
                    (failing_stream offline_world) sample_args sample_args []
                    [ModelLoad (ByLang (lit "en-us"))] (ByLang (lit "en-us"))
                    [] KeyboardInterrupt eq_refl eq_refl)
                 portaudio_error eq_refl).
  - exact (proj1 (proj2 (capture_is_cleaned_up vosk_cli.select_model
                    (failing_recognizer offline_world) sample_args sample_args []
                    [ModelLoad (ByLang (lit "en-us"))] (ByLang (lit "en-us"))
                    [] KeyboardInterrupt eq_refl eq_refl))
                 model_error eq_refl eq_refl).
  - exact (proj2 (proj2 (capture_is_cleaned_up vosk_cli.select_model
                    offline_world sample_args sample_args []
                    [ModelLoad (ByLang (lit "en-us"))] (ByLang (lit "en-us"))
                    [mkTick (Final (lit "bore da")) sample_clock]
                    KeyboardInterrupt eq_refl eq_refl))
                 eq_refl eq_refl).
Defined.

(** X11. The basic program never turns to the hub: whatever the
    arguments, the answers of the collaborators and the course of the run,
    [main] of [vosk_cli] asks for no repository, lists none, downloads and
    unpacks nothing. *)
Theorem cli_never_contacts_hub
    (w : World) (args : Namespace) (script : list Tick) (stop : exn) :
  Forall (fun ev => is_hub ev = false) (fst (vosk_cli.main w args script stop)).
Proof.
  unfold vosk_cli.main.
  destruct (main_with_trace vosk_cli.select_model w args script stop)
    as [tail [Ht Htail]].
  rewrite Ht. apply Forall_app. split.
  - unfold main_try, main_resolved, resolve_samplerate, vosk_cli.select_model.
    silent.
  - destruct Htail as [-> | ->]; repeat constructor.
Qed.

(** ** The hub *)

Lemma fetch_lists_nothing (w : World) (repo : str) (file : option str) :
  Forall (fun ev => is_listing ev = false) (trace (fetch_and_load w repo file)).
Proof. unfold fetch_and_load. silent. Qed.

Lemma choose_file_qualified (w : World) (model_id : str) :
  contains colon model_id = true ->
  trace (choose_file w model_id) = [].
Proof.
  intros H. unfold choose_file. rewrite H.
  destruct (split colon 2 model_id) as [|a [|b [|c l]]]; reflexivity.
Qed.

(** X12. The repository is listed exactly when the identifier has no
    qualifier: with a colon in the identifier no listing is ever asked
    for, without one the listing of [<id>/*.tar.gz] is the first thing the
    function does. *)
Theorem listing_only_without_qualifier (w : World) (model_id : str) :
  (contains colon model_id = true ->
   Forall (fun ev => is_listing ev = false)
          (trace (load_model_from_huggingface w model_id)))
  /\ (contains colon model_id = false ->
      hd_error (trace (load_model_from_huggingface w model_id))
      = Some (HubGlob (model_id ++ lit "/*.tar.gz"))).
Proof.
  split; intros H; unfold load_model_from_huggingface; rewrite trace_bind.
  - rewrite (choose_file_qualified w model_id H). cbn [app].
    destruct (outcome (choose_file w model_id)) as [[repo file]|e];
      [apply fetch_lists_nothing | constructor].
  - unfold choose_file. rewrite H.
    destruct (fs_glob w (model_id ++ lit "/*.tar.gz")) as [tars|e].
    + rewrite bind_perform_ok. reflexivity.
    + rewrite bind_perform_raise. reflexivity.
Qed.

Lemma listing_only_without_qualifier_witness :
  Forall (fun ev => is_listing ev = false)
         (trace (load_model_from_huggingface plain_world (lit "org/repo:model.tar.gz")))
  /\ hd_error (trace (load_model_from_huggingface plain_world (lit "org/repo")))
     = Some (HubGlob (lit "org/repo/*.tar.gz")).
Proof.
  split.
  - apply (proj1 (listing_only_without_qualifier plain_world
                    (lit "org/repo:model.tar.gz"))).
    reflexivity.
  - apply (proj2 (listing_only_without_qualifier plain_world (lit "org/repo"))).
    reflexivity.
Defined.

Lemma choose_file_loads_nothing (w : World) (model_id : str) :
  Forall (fun ev => is_model_load ev = false) (trace (choose_file w model_id)).
Proof. unfold choose_file. silent. Qed.

(** A failed download ends the second half at once. *)
Lemma fetch_download_fails (w : World) (repo file : str) (e : exn) :
  hf_hub_download w repo file = Raise e ->
  fetch_and_load w repo (Some file) = ([HubDownload repo file], Raise e).
Proof.
  intros H. unfold fetch_and_load, read_local.
  rewrite bind_ret_l, H. reflexivity.
Qed.

(** So does a message that cannot be printed. *)
Lemma fetch_unprintable (w : World) (repo file downloaded : str) (e : exn) :
  hf_hub_download w repo file = Ok downloaded ->
  console w (lit "Extracting model to "
             ++ Path_str (first_dot_dir (Path_of downloaded))) = Raise e ->
  fetch_and_load w repo (Some file)
  = ([HubDownload repo file;
      Print (lit "Extracting model to "
             ++ Path_str (first_dot_dir (Path_of downloaded)))],
     Raise e).
Proof.
  intros Hd Hp. unfold fetch_and_load, read_local.
  rewrite bind_ret_l, Hd, bind_perform_ok. cbv zeta.
  rewrite !extraction_dir_eq. unfold print. rewrite Hp. reflexivity.
Qed.

(** And an archive that cannot be unpacked. *)
Lemma fetch_extract_fails (w : World) (repo file downloaded : str) (e : exn) :
  hf_hub_download w repo file = Ok downloaded ->
  console w (lit "Extracting model to "
             ++ Path_str (first_dot_dir (Path_of downloaded))) = Ok tt ->
  extractall w (Path_str (Path_of downloaded))
             (Path_str (first_dot_dir (Path_of downloaded))) = Raise e ->
  fetch_and_load w repo (Some file)
  = ([HubDownload repo file;
      Print (lit "Extracting model to "
             ++ Path_str (first_dot_dir (Path_of downloaded)));
      TarExtract (Path_str (Path_of downloaded))
                 (Path_str (first_dot_dir (Path_of downloaded)))],
     Raise e).
Proof.
  intros Hd Hp He. unfold fetch_and_load, read_local.
  rewrite bind_ret_l, Hd, bind_perform_ok. cbv zeta.
  rewrite !extraction_dir_eq. unfold print.
  rewrite Hp, bind_perform_ok, He. reflexivity.
Qed.

(** What must have happened when the second half asks for a model. *)
Lemma fetch_model_load_inv (w : World) (repo : str) (file : option str)
    (m : model_spec) :
  In (ModelLoad m) (trace (fetch_and_load w repo file)) ->
  exists f downloaded,
    file = Some f
    /\ hf_hub_download w repo f = Ok downloaded
    /\ extractall w (Path_str (Path_of downloaded))
                  (Path_str (first_dot_dir (Path_of downloaded))) = Ok tt
    /\ m = ByPath (Path_str (entered_dir w (first_dot_dir (Path_of downloaded))))
    /\ fetch_and_load w repo file
       = ([HubDownload repo f;
           Print (lit "Extracting model to "
                  ++ Path_str (first_dot_dir (Path_of downloaded)));
           TarExtract (Path_str (Path_of downloaded))
                      (Path_str (first_dot_dir (Path_of downloaded)));
           DirGlob (Path_str (first_dot_dir (Path_of downloaded)))]
          ++ is_dir_events w (first_dot_dir (Path_of downloaded))
          ++ [ModelLoad m],
          loaded w m).
Proof.
  intros Hin. destruct file as [f|]; [|destruct Hin].
  destruct (hf_hub_download w repo f) as [downloaded|e] eqn:Hd.
  - destruct (console w (lit "Extracting model to "
                         ++ Path_str (first_dot_dir (Path_of downloaded))))
      as [[]|e] eqn:Hp.
    + destruct (extractall w (Path_str (Path_of downloaded))
                           (Path_str (first_dot_dir (Path_of downloaded))))
        as [[]|e] eqn:He.
      * pose proof (fetch_and_load_ok w repo f downloaded Hd Hp He) as Hok.
        rewrite Hok in Hin. unfold trace in Hin. cbn [fst] in Hin.
        assert (Hm : m = ByPath (Path_str (entered_dir w (first_dot_dir
                                                           (Path_of downloaded))))).
        { apply in_app_or in Hin. destruct Hin as [Hin|Hin].
          - cbn in Hin. repeat (destruct Hin as [Hin|Hin]; [discriminate Hin|]).
            destruct Hin.
          - apply in_app_or in Hin. destruct Hin as [Hin|Hin].
            + unfold is_dir_events in Hin.
              destruct (glob_star w (Path_str (first_dot_dir (Path_of downloaded))))
                as [|only [|another more]]; cbn in Hin;
                try (destruct Hin as [Hin|Hin]; [discriminate Hin|]);
                destruct Hin.
            + cbn in Hin. destruct Hin as [Hin|[]]. congruence. }
        exists f, downloaded. rewrite Hm, Hok. repeat split; assumption.
      * rewrite (fetch_extract_fails w repo f downloaded e Hd Hp He) in Hin.
        cbn in Hin. repeat (destruct Hin as [Hin|Hin]; [discriminate Hin|]).
        destruct Hin.
    + rewrite (fetch_unprintable w repo f downloaded e Hd Hp) in Hin.
      cbn in Hin. repeat (destruct Hin as [Hin|Hin]; [discriminate Hin|]).
      destruct Hin.
  - rewrite (fetch_download_fails w repo f e Hd) in Hin.
    cbn in Hin. destruct Hin as [Hin|[]]. discriminate Hin.
Qed.

(** A model returned by the second half is the one of its last event, and
    Vosk accepted it. *)
Lemma fetch_ok_inv (w : World) (repo : str) (file : option str) (m : model_spec) :
  outcome (fetch_and_load w repo file) = Ok m ->
  In (ModelLoad m) (trace (fetch_and_load w repo file)) /\ Model w m = Ok tt.
Proof.
  intros Hok. destruct file as [f|]; [|discriminate Hok].
  destruct (hf_hub_download w repo f) as [downloaded|e] eqn:Hd;
    [|rewrite (fetch_download_fails w repo f e Hd) in Hok; discriminate Hok].
  destruct (console w (lit "Extracting model to "
                       ++ Path_str (first_dot_dir (Path_of downloaded))))
    as [[]|e] eqn:Hp;
    [|rewrite (fetch_unprintable w repo f downloaded e Hd Hp) in Hok;
      discriminate Hok].
  destruct (extractall w (Path_str (Path_of downloaded))
                       (Path_str (first_dot_dir (Path_of downloaded))))
    as [[]|e] eqn:He;
    [|rewrite (fetch_extract_fails w repo f downloaded e Hd Hp He) in Hok;
      discriminate Hok].
  rewrite (fetch_and_load_ok w repo f downloaded Hd Hp He) in *.
  unfold trace, outcome in *. cbn [fst snd] in *. unfold loaded in Hok.
  destruct (Model w (ByPath (Path_str (entered_dir w (first_dot_dir
                                                       (Path_of downloaded))))))
    as [[]|e] eqn:HM; [|discriminate Hok].
  injection Hok as <-. split; [|exact HM].
  apply in_or_app. right. apply in_or_app. right. now left.
Qed.

(** X13. The function asks Vosk for a model only after a download and an
    unpacking that both succeeded, only once, as its last step, and only
    for a path: the directory the archive was unpacked into or its single
    sub-directory.  A model it returns is one Vosk accepted. *)
Theorem model_only_from_unpacked_archive
    (w : World) (model_id : str) (m : model_spec) :
  (In (ModelLoad m) (trace (load_model_from_huggingface w model_id)) ->
   exists repo file downloaded before,
     hf_hub_download w repo file = Ok downloaded
     /\ extractall w (Path_str (Path_of downloaded))
                   (Path_str (first_dot_dir (Path_of downloaded))) = Ok tt
     /\ m = ByPath (Path_str (entered_dir w (first_dot_dir (Path_of downloaded))))
     /\ trace (load_model_from_huggingface w model_id) = before ++ [ModelLoad m]
     /\ In (HubDownload repo file) before
     /\ In (TarExtract (Path_str (Path_of downloaded))
                       (Path_str (first_dot_dir (Path_of downloaded)))) before
     /\ Forall (fun ev => is_model_load ev = false) before)
  /\ (outcome (load_model_from_huggingface w model_id) = Ok m ->
      In (ModelLoad m) (trace (load_model_from_huggingface w model_id))
      /\ Model w m = Ok tt).
Proof.
  pose proof (choose_file_loads_nothing w model_id) as Hquiet.
  unfold load_model_from_huggingface.
  rewrite trace_bind, outcome_bind.
  destruct (choose_file w model_id) as [tc [[repo file]|e]];
    unfold trace, outcome in *; cbn [fst snd] in *.
  - split.
    + intros Hin. apply in_app_or in Hin. destruct Hin as [Hin|Hin].
      * rewrite Forall_forall in Hquiet. specialize (Hquiet _ Hin).
        discriminate Hquiet.
      * destruct (fetch_model_load_inv w repo file m Hin)
          as [f [downloaded [_ [Hd [He [Hm Hfetch]]]]]].
        exists repo, f, downloaded.
        eexists. rewrite Hfetch. cbn [fst].
        split; [exact Hd | split; [exact He | split; [exact Hm|]]].
        split; [rewrite !app_assoc; reflexivity|].
        split; [|split].
        -- apply in_or_app. left. apply in_or_app. right. cbn. now left.
        -- apply in_or_app. left. apply in_or_app. right. cbn. auto.
        -- repeat (apply Forall_app; split); try assumption.
           ++ repeat constructor.
           ++ unfold is_dir_events.
              destruct (glob_star w (Path_str (first_dot_dir (Path_of downloaded))))
                as [|only [|another more]]; repeat constructor.
    + intros Hok. destruct (fetch_ok_inv w repo file m Hok) as [Hin HM].
      split; [|exact HM]. apply in_or_app. now right.
  - split; [|discriminate].
    rewrite app_nil_r. intros Hin.
    rewrite Forall_forall in Hquiet. specialize (Hquiet _ Hin).
    discriminate Hquiet.
Qed.

Lemma model_only_from_unpacked_archive_witness :
  In (ModelLoad (ByPath (lit "/cache/org/repo/model/vosk-model-cy")))
     (trace (load_model_from_huggingface plain_world (lit "org/repo")))
  /\ (exists repo file downloaded before,
        hf_hub_download plain_world repo file = Ok downloaded
        /\ trace (load_model_from_huggingface plain_world (lit "org/repo"))
           = before ++ [ModelLoad (ByPath (lit "/cache/org/repo/model/vosk-model-cy"))]
        /\ In (HubDownload repo file) before)
  /\ Model plain_world (ByPath (lit "/cache/org/repo/model/vosk-model-cy")) = Ok tt.
Proof.
  assert (Hin : In (ModelLoad (ByPath (lit "/cache/org/repo/model/vosk-model-cy")))
                   (trace (load_model_from_huggingface plain_world (lit "org/repo")))).
  { vm_compute. do 7 right. left. reflexivity. }
  split; [exact Hin | split].
  - destruct (proj1 (model_only_from_unpacked_archive plain_world (lit "org/repo")
                       (ByPath (lit "/cache/org/repo/model/vosk-model-cy"))) Hin)
      as [repo [file [downloaded [before [Hd [_ [_ [Ht [Hdl _]]]]]]]]].
    exists repo, file, downloaded, before. repeat split; assumption.
  - apply (proj2 (model_only_from_unpacked_archive plain_world (lit "org/repo")
                    (ByPath (lit "/cache/org/repo/model/vosk-model-cy")))).
    reflexivity.
Defined.



Lemma removeprefix_app (p s : str) : removeprefix p (p ++ s) = s.
Proof.
  unfold removeprefix. rewrite startswith_app.
  rewrite skipn_app, Nat.sub_diag, skipn_all. reflexivity.
Qed.

(** X15. When the repository lists its one archive as [<id>/<path>] and the
    message naming it can be printed, the file asked from the hub is
    [<path>], the path inside the repository; a listed name that does not
    start with the identifier is asked for as it is, less one leading
    slash.  When the message cannot be printed (the listed name upsets the
    markup of the console), the function ends there with the exception of
    the console: no file is chosen and nothing is downloaded. *)
Theorem single_archive_file_is_relative (w : World) (model_id tar0 : str) :
  contains colon model_id = false ->
  fs_glob w (model_id ++ lit "/*.tar.gz") = Ok [tar0] ->
  (console w (lit "Resolved model tar file to be " ++ tar0) = Ok tt ->
   (forall path, tar0 = model_id ++ lit "/" ++ path ->
    choose_file w model_id
    = ([HubGlob (model_id ++ lit "/*.tar.gz");
        Print (lit "Resolved model tar file to be " ++ tar0)],
       Ok (model_id, Some path)))
   /\ (startswith model_id tar0 = false ->
       choose_file w model_id
       = ([HubGlob (model_id ++ lit "/*.tar.gz");
           Print (lit "Resolved model tar file to be " ++ tar0)],
          Ok (model_id, Some (removeprefix (lit "/") tar0)))))
  /\ (forall e,
        console w (lit "Resolved model tar file to be " ++ tar0) = Raise e ->
        load_model_from_huggingface w model_id
        = ([HubGlob (model_id ++ lit "/*.tar.gz");
            Print (lit "Resolved model tar file to be " ++ tar0)],
           Raise e)).
Proof.
  intros Hc Hg. split.
  - intros Hp. rewrite (choose_single w model_id tar0 Hc Hg Hp). split.
    + intros path ->. now rewrite !removeprefix_app.
    + intros Hs. unfold removeprefix at 2. now rewrite Hs.
  - intros e Hp. unfold load_model_from_huggingface.
    rewrite (choose_single_unprintable w model_id tar0 e Hc Hg Hp).
    reflexivity.
Qed.

Lemma single_archive_file_is_relative_witness :
  choose_file plain_world (lit "org/repo")
  = ([HubGlob (lit "org/repo/*.tar.gz");
      Print (lit "Resolved model tar file to be org/repo/model.tar.gz")],
     Ok (lit "org/repo", Some (lit "model.tar.gz")))
  /\ choose_file (hub_world [lit "/other/model.tar.gz"] []) (lit "org/repo")
     = ([HubGlob (lit "org/repo/*.tar.gz");
         Print (lit "Resolved model tar file to be /other/model.tar.gz")],
        Ok (lit "org/repo", Some (lit "other/model.tar.gz")))
  /\ load_model_from_huggingface tagged_world (lit "org/repo")
     = ([HubGlob (lit "org/repo/*.tar.gz");
         Print (lit "Resolved model tar file to be org/repo/[/x].tar.gz")],
        Raise markup_error).
Proof.
  split; [|split].
  - exact (proj1 (proj1 (single_archive_file_is_relative plain_world (lit "org/repo")
                    (lit "org/repo/model.tar.gz") eq_refl eq_refl) eq_refl)
                 (lit "model.tar.gz") eq_refl).
  - exact (proj2 (proj1 (single_archive_file_is_relative
                    (hub_world [lit "/other/model.tar.gz"] []) (lit "org/repo")
                    (lit "/other/model.tar.gz") eq_refl eq_refl) eq_refl)
                 eq_refl).
  - exact (proj2 (single_archive_file_is_relative tagged_world (lit "org/repo")
                    (lit "org/repo/[/x].tar.gz") eq_refl eq_refl)
                 markup_error eq_refl).
Defined.

(** ** Where an archive is unpacked *)

Section PathFacts.

Lemma split_budget_no_sep (sep : N) (s : str) :
  Forall (fun part => contains sep part = false) (split_budget sep None s).
Proof.
  induction s as [|c r IH]; cbn [split_budget]; [repeat constructor|].
  destruct (N.eqb_spec c sep) as [Hc|Hc].
  - constructor; [reflexivity | exact IH].
  - pose proof (split_budget_nonempty sep None r) as Hne.
    destruct (split_budget sep None r) as [|p ps]; [contradiction|].
    inversion IH as [|? ? Hp Hps]; subst.
    constructor; [|exact Hps].
    unfold contains in *. cbn [existsb]. rewrite Hp, orb_false_r.
    apply N.eqb_neq. congruence.
Qed.

Lemma split_budget_whole (sep : N) (s : str) :
  contains sep s = false -> split_budget sep None s = [s].
Proof.
  unfold contains. induction s as [|c r IH]; intros H; [reflexivity|].
  cbn [existsb] in H. apply orb_false_iff in H as [Hc Hr].
  cbn [split_budget]. rewrite N.eqb_sym, Hc, (IH Hr). reflexivity.
Qed.

(** The components of a parsed path are not empty, are not ["."] and hold
    no slash. *)
Lemma Path_of_parts (s : str) :
  Forall (fun part => keep_part part = true /\ contains slash part = false)
         (parts (Path_of s)).
Proof.
  unfold Path_of. cbn [parts]. apply Forall_forall. intros part Hin.
  apply filter_In in Hin as [Hin Hk]. split; [exact Hk|].
  pose proof (split_budget_no_sep slash s) as H.
  rewrite Forall_forall in H. now apply H.
Qed.

Lemma last_In {A : Type} (l : list A) (d : A) : l <> [] -> In (last l d) l.
Proof.
  induction l as [|x r IH]; intros H; [contradiction|].
  destruct r as [|y r']; [now left|].
  right. apply IH. discriminate.
Qed.

Lemma name_of_parsed (s : str) :
  (parts (Path_of s) = [] /\ name (Path_of s) = [])
  \/ (parts (Path_of s) <> []
      /\ keep_part (name (Path_of s)) = true
      /\ contains slash (name (Path_of s)) = false
      /\ parts (Path_of s)
         = removelast (parts (Path_of s)) ++ [name (Path_of s)]).
Proof.
  pose proof (Path_of_parts s) as H. unfold name.
  destruct (parts (Path_of s)) as [|x l] eqn:E; [now left|].
  right. assert (Hne : x :: l <> []) by discriminate.
  pose proof (app_removelast_last [] Hne) as Hsplit.
  rewrite Forall_forall in H.
  pose proof (last_In (x :: l) [] Hne) as Hin.
  destruct (H (last (x :: l) []) Hin) as [Hk Hs].
  repeat split; assumption.
Qed.

Lemma splitroot_relative (c : N) (r : str) :
  c <> slash -> splitroot (c :: r) = [].
Proof.
  intros H. unfold splitroot.
  destruct c as [|p]; [reflexivity|].
  do 6 (try (destruct p as [p|p|]; try reflexivity)); contradiction.
Qed.

Lemma truediv_relative (p : Path) (c : N) (r : str) :
  c <> slash ->
  truediv p (c :: r)
  = {| root := root p; parts := parts p ++ parts (Path_of (c :: r)) |}.
Proof.
  intros H. unfold truediv.
  destruct c as [|q]; [reflexivity|].
  do 6 (try (destruct q as [q|q|]; try reflexivity)); contradiction.
Qed.

(** Joining a single plain component appends it. *)
Lemma truediv_component (p : Path) (b : str) :
  keep_part b = true -> contains slash b = false ->
  truediv p b = child_of p b.
Proof.
  intros Hk Hs. destruct b as [|c r]; [discriminate Hk|].
  assert (Hc : c <> slash).
  { unfold contains in Hs. cbn [existsb] in Hs.
    apply orb_false_iff in Hs as [Hc _]. apply N.eqb_neq in Hc. congruence. }
  rewrite (truediv_relative p c r Hc). unfold child_of. f_equal.
  unfold Path_of. cbn [parts].
  change (split slash (-1) (c :: r)) with (split_budget slash None (c :: r)).
  rewrite (split_budget_whole slash (c :: r) Hs). cbn [filter].
  now rewrite Hk.
Qed.

Lemma truediv_empty (p : Path) : truediv p [] = p.
Proof.
  unfold truediv. cbn. rewrite app_nil_r. destruct p; reflexivity.
Qed.

Lemma before_first_free (c x : N) (s : str) :
  contains x s = false -> contains x (before_first c s) = false.
Proof.
  unfold contains. induction s as [|y r IH]; intros H; [reflexivity|].
  cbn [existsb] in H. apply orb_false_iff in H as [Hy Hr].
  cbn [before_first]. destruct (y =? c)%N; [reflexivity|].
  cbn [existsb]. now rewrite Hy, IH.
Qed.

Lemma before_first_has_none (c : N) (s : str) :
  contains c (before_first c s) = false.
Proof.
  unfold contains. induction s as [|y r IH]; [reflexivity|].
  cbn [before_first]. destruct (N.eqb_spec y c) as [E|E]; [reflexivity|].
  cbn [existsb]. rewrite IH, orb_false_r. apply N.eqb_neq. congruence.
Qed.

Lemma before_first_whole (c : N) (s : str) :
  contains c s = false -> before_first c s = s.
Proof.
  unfold contains. induction s as [|y r IH]; intros H; [reflexivity|].
  cbn [existsb] in H. apply orb_false_iff in H as [Hy Hr].
  cbn [before_first]. rewrite N.eqb_sym, Hy, (IH Hr). reflexivity.
Qed.

Lemma keep_part_dot_free (b : str) :
  b <> [] -> contains dot b = false -> keep_part b = true.
Proof.
  intros Hne Hd. unfold keep_part. destruct b as [|c r]; [contradiction|].
  cbn [truthy andb]. destruct (str_eqb (c :: r) (lit ".")) eqn:E; [|reflexivity].
  apply str_eqb_eq in E. rewrite E in Hd. discriminate Hd.
Qed.

End PathFacts.

(** X16. Where the archive at the downloaded path is unpacked, by the
    shape of its file name: a name with text before its first dot gives the
    sibling directory called by that text; a name that starts with a dot
    gives the directory of the archive itself; a name without any dot gives
    the path of the archive itself, so that the archive would be unpacked
    onto its own file.  When the name has a dot after some text, the
    directory is a true sibling: another path in the same directory. *)
Theorem extraction_dir_by_name (downloaded : str) :
  let archive := Path_of downloaded in
  let base := before_first dot (name archive) in
  (base <> [] -> extraction_dir archive = child_of (parent archive) base)
  /\ (base = [] -> extraction_dir archive = parent archive)
  /\ (contains dot (name archive) = false -> extraction_dir archive = archive)
  /\ (base <> [] -> contains dot (name archive) = true ->
      extraction_dir archive <> archive
      /\ parent (extraction_dir archive) = parent archive).
Proof.
  intros archive base.
  pose proof (name_of_parsed downloaded) as Hnp.
  change (Path_of downloaded) with archive in Hnp.
  assert (Hdir : extraction_dir archive = truediv (parent archive) base)
    by apply extraction_dir_eq.
  assert (Hslash : contains slash base = false).
  { apply before_first_free.
    destruct Hnp as [[_ Hn] | [_ [_ [Hs _]]]]; [now rewrite Hn | exact Hs]. }
  assert (Hchild : base <> [] ->
                   extraction_dir archive = child_of (parent archive) base).
  { intros Hb. rewrite Hdir. apply truediv_component; [|exact Hslash].
    apply keep_part_dot_free; [exact Hb | apply before_first_has_none]. }
  split; [exact Hchild | split; [|split]].
  - intros Hb. rewrite Hdir, Hb. apply truediv_empty.
  - intros Hd.
    assert (Hbase : base = name archive) by (now apply before_first_whole).
    destruct Hnp as [[Hp Hn] | [Hp [_ [_ Hsplit]]]].
    + rewrite Hdir, Hbase, Hn, truediv_empty.
      unfold parent. rewrite Hp. destruct archive as [ro pa].
      cbn in *. now subst pa.
    + assert (Hb : base <> []).
      { rewrite Hbase. intros Hn. unfold name in Hn.
        rewrite Hsplit in Hn. rewrite last_last in Hn.
        rewrite Hn in Hsplit. unfold name in Hsplit.
        pose proof (Path_of_parts downloaded) as Hall. fold archive in Hall.
        rewrite Hsplit, Forall_forall in Hall.
        destruct (Hall []) as [Hk _];
          [apply in_or_app; right; now left | discriminate Hk]. }
      rewrite (Hchild Hb), Hbase. unfold child_of, parent. cbn [root parts].
      rewrite <- Hsplit. destruct archive; reflexivity.
  - intros Hb Hd. rewrite (Hchild Hb). split.
    + intros Heq.
      destruct Hnp as [[Hp Hn] | [Hp [_ [_ Hsplit]]]].
      * rewrite Hn in Hd. discriminate Hd.
      * assert (Hparts : parts (child_of (parent archive) base) = parts archive)
          by (now rewrite Heq).
        unfold child_of, parent in Hparts. cbn [parts] in Hparts.
        rewrite Hsplit in Hparts at 2.
        apply app_inj_tail in Hparts as [_ Hname].
        pose proof (before_first_has_none dot (name archive)) as Hfree.
        fold base in Hfree. rewrite Hname in Hfree. congruence.
    + unfold parent, child_of. cbn [root parts].
      now rewrite removelast_last.
Qed.

Lemma extraction_dir_by_name_witness :
  extraction_dir (Path_of (lit "/cache/model-0.15.tar.gz"))
  = child_of (parent (Path_of (lit "/cache/model-0.15.tar.gz"))) (lit "model-0")
  /\ extraction_dir (Path_of (lit "/cache/.hidden.tar.gz"))
     = parent (Path_of (lit "/cache/.hidden.tar.gz"))
  /\ extraction_dir (Path_of (lit "/cache/model")) = Path_of (lit "/cache/model")
  /\ extraction_dir (Path_of (lit "/cache/model.tar.gz"))
     <> Path_of (lit "/cache/model.tar.gz").
Proof.
  split; [|split; [|split]].
  - apply (proj1 (extraction_dir_by_name (lit "/cache/model-0.15.tar.gz"))).
    discriminate.
  - apply (proj1 (proj2 (extraction_dir_by_name (lit "/cache/.hidden.tar.gz")))).
    reflexivity.
  - apply (proj1 (proj2 (proj2 (extraction_dir_by_name (lit "/cache/model"))))).
    reflexivity.
  - apply (proj2 (proj2 (proj2 (extraction_dir_by_name (lit "/cache/model.tar.gz"))))).
    + discriminate.
    + reflexivity.
Defined.

(** ** The frame queue between the two threads *)

Lemma delivered_app (a b : list Turn) : delivered (a ++ b) = delivered a ++ delivered b.
Proof. unfold delivered. apply flat_map_app. Qed.

Lemma reported_app (a b : list Turn) : reported (a ++ b) = reported a ++ reported b.
Proof. unfold reported. apply flat_map_app. Qed.

Lemma turn_invariant (s : Session) (t : Turn) :
  taken (turn s t) ++ q (capture (turn s t))
  = (taken s ++ q (capture s)) ++ delivered [t]
  /\ stderr (capture (turn s t)) = stderr (capture s) ++ reported [t].
Proof.
  destruct t as [d|]; cbn [turn delivered reported flat_map].
  - cbn [capture callback q stderr taken]. split.
    + now rewrite app_nil_r, app_assoc.
    + rewrite app_nil_r. destruct (status d =? 0)%N; [now rewrite app_nil_r | reflexivity].
  - rewrite !app_nil_r. unfold q_get.
    destruct (q (capture s)) as [|b rest] eqn:E; cbn [capture q stderr taken].
    + now rewrite E.
    + rewrite <- app_assoc. split; reflexivity.
Qed.

Lemma turns_invariant (turns : list Turn) : forall s : Session,
  taken (fold_left turn turns s) ++ q (capture (fold_left turn turns s))
  = (taken s ++ q (capture s)) ++ delivered turns
  /\ stderr (capture (fold_left turn turns s))
     = stderr (capture s) ++ reported turns.
Proof.
  induction turns as [|t turns IH]; intros s.
  - cbn. now rewrite !app_nil_r.
  - cbn [fold_left]. destruct (IH (turn s t)) as [Hq He].
    destruct (turn_invariant s t) as [Hq1 He1].
    rewrite Hq, He, Hq1, He1.
    change (t :: turns) with ([t] ++ turns).
    rewrite delivered_app, reported_app, !app_assoc. split; reflexivity.
Qed.

(** X17. However the audio thread and the main thread take turns, the
    blocks the loop has taken out of the queue, followed by those still
    waiting in it, are exactly the blocks the audio library delivered, in
    the order of delivery: no block is dropped, repeated or reordered, also
    when a status flag was set; and the error stream holds exactly the
    statuses that had a flag set, in that order. *)
Theorem frame_queue_is_fifo (turns : list Turn) :
  taken (session turns) ++ q (capture (session turns)) = delivered turns
  /\ stderr (capture (session turns)) = reported turns
  /\ length (taken (session turns)) <= length (delivered turns).
Proof.
  destruct (turns_invariant turns {| capture := mkCapture [] []; taken := [] |})
    as [Hq He].
  fold (session turns) in Hq, He. cbn in Hq, He.
  split; [exact Hq | split; [exact He|]].
  rewrite <- Hq, length_app. lia.
Qed.

(** ** The rate taken from the device *)

(** X18. Without [-r], a device that reports the finite rate [x] gives the
    integer next to [x] on the side of zero: it differs from [x] by less
    than one, is never larger than a positive [x] nor smaller than a
    negative one, and is [x] itself when [x] is a whole number. *)
Theorem device_rate_is_truncated (w : World) (args : Namespace) (x : Q) :
  samplerate args = None ->
  default_samplerate w (device args) = Ok (Finite x) ->
  exists n,
    outcome (resolve_samplerate w args) = Ok (set_samplerate args n)
    /\ (0 <= x -> inject_Z n <= x /\ x < inject_Z (n + 1))%Q
    /\ (x <= 0 -> inject_Z (n - 1) < x /\ x <= inject_Z n)%Q
    /\ (forall k, x == inject_Z k -> n = k)%Q.
Proof.
  intros Hs Hd. exists (Z.quot (Qnum x) (Zpos (Qden x))). split; [|split; [|split]].
  - rewrite (resolve_unset w args (Finite x) _ Hs Hd eq_refl). reflexivity.
  - unfold Qle, Qlt, inject_Z. cbn [Qnum Qden]. intros H.
    pose proof (Z.quot_rem' (Qnum x) (Zpos (Qden x))) as Hqr.
    assert (Hb : (0 <= Z.rem (Qnum x) (Zpos (Qden x)) < Zpos (Qden x))%Z)
      by (apply Z.rem_bound_pos; lia).
    nia.
  - unfold Qle, Qlt, inject_Z. cbn [Qnum Qden]. intros H.
    pose proof (Z.quot_rem' (Qnum x) (Zpos (Qden x))) as Hqr.
    assert (Hb : (- Zpos (Qden x) < Z.rem (Qnum x) (Zpos (Qden x)) <= 0)%Z)
      by (apply Z.rem_bound_pos_neg; lia).
    nia.
  - unfold Qeq, inject_Z. cbn [Qnum Qden]. intros k Hk.
    rewrite Z.mul_1_r in Hk. rewrite Hk.
    apply Z.quot_mul. lia.
Qed.

Lemma device_rate_is_truncated_witness :
  outcome (resolve_samplerate offline_world unset_args)
  = Ok (set_samplerate unset_args 44100).
Proof.
  destruct (device_rate_is_truncated offline_world unset_args (44100 # 1)%Q
              eq_refl eq_refl) as [n [Hres [_ [_ Hwhole]]]].
  rewrite Hres. f_equal. f_equal. apply Hwhole. reflexivity.
Defined.

(** ** An empty identifier *)

(** X19. An identifier given as the empty string is not taken for a missing
    one: the footer falls back to the name [en-us], but the resolution asks
    whether the current directory [.] exists and, as it does, loads the
    model from the empty path in both programs, not the [en-us] pack. *)
Theorem empty_identifier_is_a_path (w : World) (args : Namespace) :
  model args = Some [] ->
  exists_ w (lit ".") = Ok true ->
  vosk_cli.select_model w args
  = ([PathExists (lit "."); ModelLoad (ByPath [])], loaded w (ByPath []))
  /\ vosk_tui.select_model w args
     = ([PathExists (lit "."); ModelLoad (ByPath [])], loaded w (ByPath []))
  /\ (forall r, samplerate args = Some r ->
      exists rest,
        Footer.__rich__ (Footer.mk args)
        = Ok (mkPanel (Text (lit "Model: en-us" ++ rest)) (Some (lit "Parameters")))).
Proof.
  intros Hm He.
  unfold vosk_cli.select_model, vosk_tui.select_model, path_exists.
  rewrite Hm. change (Path_str (Path_of [])) with (lit ".").
  rewrite He, bind_perform_ok, load_eq.
  split; [reflexivity | split; [reflexivity|]].
  intros r Hr. unfold Footer.__rich__. cbn [Footer.args]. rewrite Hm, Hr.
  eexists. cbn [truthy join]. rewrite <- app_assoc. reflexivity.
Qed.

Lemma empty_identifier_is_a_path_witness :
  vosk_tui.select_model local_world (args_with_model [])
  = ([PathExists (lit "."); ModelLoad (ByPath [])], Ok (ByPath [])).
Proof.
  exact (proj1 (proj2 (empty_identifier_is_a_path local_world (args_with_model [])
                         eq_refl eq_refl))).
Defined.

(** ** The clock of the header *)

Section HeaderFacts.

Lemma contains_app (c : N) (a b : str) :
  contains c (a ++ b) = contains c a || contains c b.
Proof. unfold contains. apply existsb_app. Qed.

Lemma replace_app (c : N) (new a b : str) :
  replace c new (a ++ b) = replace c new a ++ replace c new b.
Proof. unfold replace. apply flat_map_app. Qed.

(** Replacing a character that does not occur changes nothing. *)
Lemma replace_free (c : N) (new s : str) :
  contains c s = false -> replace c new s = s.
Proof.
  unfold contains, replace. induction s as [|x r IH]; intros H; [reflexivity|].
  cbn [existsb] in H. apply orb_false_iff in H as [Hx Hr].
  cbn [flat_map]. rewrite N.eqb_sym, Hx, (IH Hr). reflexivity.
Qed.

(** A text with two occurrences of a character, both replaced. *)
Lemma replace_two (c : N) (new a b d : str) :
  contains c a = false -> contains c b = false -> contains c d = false ->
  replace c new (a ++ [c] ++ b ++ [c] ++ d) = a ++ new ++ b ++ new ++ d.
Proof.
  intros Ha Hb Hd. rewrite !replace_app.
  rewrite (replace_free c new a Ha), (replace_free c new b Hb).
  rewrite (replace_free c new d Hd).
  unfold replace. cbn [flat_map]. rewrite N.eqb_refl, app_nil_r. reflexivity.
Qed.

Lemma uint_digits_no_colon (u : Decimal.uint) :
  contains colon (uint_digits u) = false.
Proof. induction u; cbn; auto. Qed.

Lemma pad_left_no_colon (fill : N) (width : nat) (s : str) :
  (colon =? fill)%N = false -> contains colon s = false ->
  contains colon (pad_left fill width s) = false.
Proof.
  intros Hf Hs. unfold pad_left. rewrite contains_app, Hs, orb_false_r.
  unfold contains. induction (width - length s) as [|k IH]; [reflexivity|].
  cbn [repeat existsb]. now rewrite Hf, IH.
Qed.

Lemma two_no_colon (n : N) : contains colon (two n) = false.
Proof.
  unfold two. apply pad_left_no_colon; [reflexivity | apply uint_digits_no_colon].
Qed.

Lemma nth_no_colon (names : list str) (k : nat) :
  Forall (fun s => contains colon s = false) names ->
  contains colon (nth k names []) = false.
Proof.
  intros H. destruct (Nat.lt_ge_cases k (length names)) as [Hk|Hk].
  - rewrite Forall_forall in H. apply H, nth_In, Hk.
  - now rewrite nth_overflow.
Qed.

Lemma day_name_no_colon (w : N) : contains colon (day_name w) = false.
Proof. unfold day_name. apply nth_no_colon. repeat constructor. Qed.

Lemma month_name_no_colon (m : N) : contains colon (month_name m) = false.
Proof. unfold month_name. apply nth_no_colon. repeat constructor. Qed.

End HeaderFacts.

(** X20. At any reading of the clock the right cell of the header is the
    [ctime] text in green with each of its two colons, and nothing else,
    wrapped in blink markup: the date, the hour, the minutes and the
    seconds themselves appear unchanged. *)
Theorem header_clock_blinks (clock : datetime) :
  exists upto_hour minutes from_seconds,
    ctime clock = upto_hour ++ lit ":" ++ minutes ++ lit ":" ++ from_seconds
    /\ contains colon upto_hour = false
    /\ contains colon minutes = false
    /\ contains colon from_seconds = false
    /\ rows_of_header clock
       = [[lit "Prifysgol Bangor a ffrindiau";
           lit "[bold]Vosk Live Demo[reset]";
           lit "[green]" ++ upto_hour ++ lit "[blink]:[/]" ++ minutes
             ++ lit "[blink]:[/]" ++ from_seconds]].
Proof.
  exists (day_name (weekday clock) ++ lit " " ++ month_name (month clock) ++ lit " "
          ++ pad_left 32 2 (digits (day clock)) ++ lit " " ++ two (hour clock)),
         (two (minute clock)),
         (two (second clock) ++ lit " " ++ pad_left 48 4 (digits (year clock))).
  assert (Hc : ctime clock
               = (day_name (weekday clock) ++ lit " " ++ month_name (month clock)
                  ++ lit " " ++ pad_left 32 2 (digits (day clock)) ++ lit " "
                  ++ two (hour clock))
                 ++ lit ":" ++ two (minute clock) ++ lit ":"
                 ++ two (second clock) ++ lit " "
                 ++ pad_left 48 4 (digits (year clock))).
  { unfold ctime, time_isoformat. now rewrite <- !app_assoc. }
  assert (H1 : contains colon
                 (day_name (weekday clock) ++ lit " " ++ month_name (month clock)
                  ++ lit " " ++ pad_left 32 2 (digits (day clock)) ++ lit " "
                  ++ two (hour clock)) = false).
  { rewrite !contains_app, day_name_no_colon, month_name_no_colon, two_no_colon.
    rewrite pad_left_no_colon by (reflexivity || apply uint_digits_no_colon).
    reflexivity. }
  assert (H3 : contains colon
                 (two (second clock) ++ lit " "
                  ++ pad_left 48 4 (digits (year clock))) = false).
  { rewrite !contains_app, two_no_colon.
    rewrite pad_left_no_colon by (reflexivity || apply uint_digits_no_colon).
    reflexivity. }
  split; [exact Hc | split; [exact H1 | split; [apply two_no_colon | split;
    [exact H3|]]]].
  unfold rows_of_header, Header.__rich__. cbn [renderable rows].
  rewrite Hc. do 4 f_equal.
  apply (f_equal (fun s => lit "[green]" ++ s)).
  exact (replace_two colon (lit "[blink]:[/]") _ _ _ H1
           (two_no_colon (minute clock)) H3).
Qed.
